(** * Offset normalization and canonicalization of grapher output

    A shallow embedding of [grapher/grapher.go] (package [grapher]):
    [ensureOffsetsAreByteOffsets], its closures [addOrGetFile] and [fix],
    [sortedOutput] and [NormalizeData], over the data model of
    [graph/def.proto].

    Modelling choices:
    - bytes are [Z] values in [0, 255]; a file's content is [list Z];
    - Go [int] offsets are [Z];
    - the [*graph.Def], [*graph.Ref], [*graph.Doc] and [*ann.Ann] slices of an
      [Output] are lists of pointers ([N]) into one heap per record type
      ([gmap N _]); a pointer absent from its heap is a nil pointer, and
      dereferencing it is a panic;
    - a panic that escapes [NormalizeData] is the outcome [Panic]; a panic
      recovered by the deferred [recover] of [fix] leaves the state as it was
      at the panic;
    - the file system is fixed during a call: a map from absolute paths to
      entries;
    - [log.Printf] output is not modelled. *)

From Stdlib Require Import String Ascii Sorting.Sorted Sorting.Permutation.
From stdpp Require Import base options list gmap strings countable.

Open Scope Z_scope.

(* ------------------------------------------------------------------ *)
(** ** Position index (package [fileset], [SetByteOffsetsForContent] and
    [ByteOffsetOfRune]) *)

Definition is_cont (b : Z) : bool := (128 <=? b) && (b <=? 191).

(** Width in bytes of the rune decoded at the head of [l], as Go's
    [utf8.DecodeRune] (used by [for i := range string(content)]) decodes it:
    an invalid or truncated sequence is a rune of width 1. *)
Definition rune_width (l : list Z) : nat :=
  match l with
  | [] => 0
  | b0 :: rest =>
    if b0 <? 128 then 1
    else if (194 <=? b0) && (b0 <=? 223) then
      match rest with
      | b1 :: _ => if is_cont b1 then 2 else 1
      | _ => 1
      end
    else if (224 <=? b0) && (b0 <=? 239) then
      match rest with
      | b1 :: b2 :: _ =>
        let lo := if b0 =? 224 then 160 else 128 in
        let hi := if b0 =? 237 then 159 else 191 in
        if (lo <=? b1) && (b1 <=? hi) && is_cont b2 then 3 else 1
      | _ => 1
      end
    else if (240 <=? b0) && (b0 <=? 244) then
      match rest with
      | b1 :: b2 :: b3 :: _ =>
        let lo := if b0 =? 240 then 144 else 128 in
        let hi := if b0 =? 244 then 143 else 191 in
        if (lo <=? b1) && (b1 <=? hi) && is_cont b2 && is_cont b3 then 4 else 1
      | _ => 1
      end
    else 1
  end.

(** Byte offsets at which the runes of [l] start, [pos] being the offset of
    the head of [l]; [fuel] bounds the number of runes. *)
Fixpoint rune_starts (fuel : nat) (pos : Z) (l : list Z) : list Z :=
  match fuel with
  | O => []
  | S fuel' =>
    match l with
    | [] => []
    | _ :: _ =>
      let w := rune_width l in
      pos :: rune_starts fuel' (pos + Z.of_nat w) (drop w l)
    end
  end.

(** Modelled from the spec: the position index of the external [fileset]
    package, built from a file's raw bytes ([SetByteOffsetsForContent]).
    Entry [n] is the byte offset of rune [n]; the last entry is the length
    of the content (the position just after the last rune). *)
Definition byte_offsets_for_content (data : list Z) : list Z :=
  rune_starts (length data) 0 data ++ [Z.of_nat (length data)].

(** Modelled from the spec: [f.ByteOffsetOfRune(offset)], a lookup that
    fails (panics) when the rune offset is not a position of the content. *)
Definition byte_offset_of_rune (tbl : list Z) (offset : Z) : option Z :=
  if offset <? 0 then None else tbl !! Z.to_nat offset.

(** The decomposed spelling of "cafe" with an accented e: c, a, f, e, U+0301 (combining acute
    accent, bytes CC 81); 5 code points in 6 bytes. *)
Definition cafe_nfd : list Z := [99; 97; 102; 101; 204; 129].

(** "e!" with a precomposed accented e (bytes C3 A9): 2 code points in 3 bytes. *)
Definition e_bang : list Z := [195; 169; 33].

(* ------------------------------------------------------------------ *)
(** ** Data model ([graph/def.proto] and the [graph] and [ann] types) *)

Module DefKey.
Record t := mk {
  Repo : string; CommitID : string; UnitType : string; Unit : string;
  Path : string }.
End DefKey.

Module DefDoc.
Record t := mk { Format : string; Data : string }.
End DefDoc.

Module Def.
Record t := mk {
  Key : DefKey.t; Name : string; Kind : string; File : string;
  DefStart : Z; DefEnd : Z; Exported : bool; Local : bool; Test : bool;
  Data : list Z; Docs : list DefDoc.t; TreePath : string }.
Definition set_pos (d : t) (s e : Z) : t :=
  mk (Key d) (Name d) (Kind d) (File d) s e (Exported d) (Local d) (Test d)
     (Data d) (Docs d) (TreePath d).
End Def.

(** In the records below, the Go fields [End] and [Type] are named [End_]
    and [Type_] ([End] and [Type] are Rocq keywords). *)

(** [graph.Ref]: a reference to the definition named by the [Def*] fields. *)
Module Ref.
Record t := mk {
  DefRepo : string; DefUnitType : string; DefUnit : string; DefPath : string;
  Repo : string; CommitID : string; UnitType : string; Unit : string;
  Def : bool; File : string; Start : Z; End_ : Z }.
Definition set_pos (r : t) (s e : Z) : t :=
  mk (DefRepo r) (DefUnitType r) (DefUnit r) (DefPath r) (Repo r)
     (CommitID r) (UnitType r) (Unit r) (Def r) (File r) s e.
Definition set_DefRepo (r : t) (x : string) : t :=
  mk x (DefUnitType r) (DefUnit r) (DefPath r) (Repo r)
     (CommitID r) (UnitType r) (Unit r) (Def r) (File r) (Start r) (End_ r).
End Ref.

(** [graph.Doc]: documentation of the definition with key [Key]. *)
Module Doc.
Record t := mk {
  Key : DefKey.t; Format : string; Data : string; File : string;
  Start : Z; End_ : Z }.
Definition set_pos (d : t) (s e : Z) : t :=
  mk (Key d) (Format d) (Data d) (File d) s e.
End Doc.

(** [ann.Ann]: an annotation of a source range. *)
Module Ann.
Record t := mk {
  Repo : string; CommitID : string; UnitType : string; Unit : string;
  File : string; Start : Z; End_ : Z; Type_ : string; Data : list Z }.
Definition set_pos (a : t) (s e : Z) : t :=
  mk (Repo a) (CommitID a) (UnitType a) (Unit a) (File a) s e (Type_ a)
     (Data a).
End Ann.

(** The records that carry a file and a position range: [fix] is called on
    each with its [File] and the addresses of its two offset fields. *)
Class Positioned (A : Type) := {
  pfile : A -> string;
  pstart : A -> Z;
  pend : A -> Z;
  set_pos : A -> Z -> Z -> A
}.

#[export] Instance Def_positioned : Positioned Def.t :=
  { pfile := Def.File; pstart := Def.DefStart; pend := Def.DefEnd;
    set_pos := Def.set_pos }.
#[export] Instance Ref_positioned : Positioned Ref.t :=
  { pfile := Ref.File; pstart := Ref.Start; pend := Ref.End_;
    set_pos := Ref.set_pos }.
#[export] Instance Doc_positioned : Positioned Doc.t :=
  { pfile := Doc.File; pstart := Doc.Start; pend := Doc.End_;
    set_pos := Doc.set_pos }.
#[export] Instance Ann_positioned : Positioned Ann.t :=
  { pfile := Ann.File; pstart := Ann.Start; pend := Ann.End_;
    set_pos := Ann.set_pos }.

(** [Output]: four slices of pointers. *)
Record Output := mkOutput {
  Defs : list N; Refs : list N; Docs : list N; Anns : list N }.

(** The heaps the pointers of an [Output] point into. *)
Record Store := mkStore {
  defs_h : gmap N Def.t; refs_h : gmap N Ref.t;
  docs_h : gmap N Doc.t; anns_h : gmap N Ann.t }.

(** [OffsetType], the constants [OffsetUnspecified], [OffsetChar] and
    [OffsetByte]. *)
Inductive OffsetType := OffsetUnspecified | OffsetChar | OffsetByte.

(* ------------------------------------------------------------------ *)
(** ** File system and the per-call file cache *)

(** What [os.Stat] finds at a path: a regular file, whose content
    [ioutil.ReadFile] returns unless reading fails ([None]), or an entry of
    another kind (directory, device, ...). *)
Inductive FEntry :=
  | FRegular (content : option (list Z))
  | FOther.

Abbreviation FileSystem := (gmap string FEntry).

(** The [files] map of [ensureOffsetsAreByteOffsets]: absolute path to the
    position index built for it. *)
Abbreviation Cache := (gmap string (list Z)).

(** [ioutil.ReadFile]. *)
Definition read_file (fs : FileSystem) (path : string) : option (list Z) :=
  match fs !! path with
  | Some (FRegular c) => c
  | _ => None
  end.

(** [addOrGetFile]: [None] is the panic raised when [ReadFile] fails. *)
Definition addOrGetFile (fs : FileSystem) (files : Cache) (filename : string)
  : option (Cache * list Z) :=
  match files !! filename with
  | Some f => Some (files, f)
  | None =>
    match read_file fs filename with
    | None => None
    | Some data =>
      let f := byte_offsets_for_content data in
      Some (<[filename := f]> files, f)
    end
  end.

(** The loop of [fix] over its offsets: a zero offset is skipped, a non-zero
    one is replaced by its byte offset; a failing lookup panics, which stops
    the loop and leaves that offset and the later ones as they are (the
    earlier ones have already been written). *)
Fixpoint fix_offsets (f : list Z) (offsets : list Z) : list Z :=
  match offsets with
  | [] => []
  | o :: rest =>
    if o =? 0 then o :: fix_offsets f rest
    else match byte_offset_of_rune f o with
         | Some after => after :: fix_offsets f rest
         | None => offsets
         end
  end.

Section Fix.
Context (join : string -> string -> string).
Context (fs : FileSystem) (dir : string).

(** The closure [fix] ([fix] is a Rocq keyword, hence [fix_]):
    [fix(a.File, &a.Start, &a.End)] with the cache threaded through; the
    deferred [recover] turns every panic into the state reached so far. *)
Definition fix_ `{Positioned A} (files : Cache) (a : A) : Cache * A :=
  let filename := pfile a in
  if String.eqb filename "" then (files, a) else
  let filename := join dir filename in
  match fs !! filename with
  | Some (FRegular _) =>
    match addOrGetFile fs files filename with
    | None => (files, a)
    | Some (files', f) =>
      match fix_offsets f [pstart a; pend a] with
      | [s; e] => (files', set_pos a s e)
      | _ => (files', a)
      end
    end
  | _ => (files, a)
  end.

(** One of the four loops of [ensureOffsetsAreByteOffsets]; [None] is the
    nil-pointer panic of [a.File] on an absent pointer. *)
Fixpoint fix_all `{Positioned A} (files : Cache) (h : gmap N A) (ps : list N)
  : option (Cache * gmap N A) :=
  match ps with
  | [] => Some (files, h)
  | p :: ps' =>
    match h !! p with
    | None => None
    | Some a =>
      let '(files', a') := fix_ files a in
      fix_all files' (<[p := a']> h) ps'
    end
  end.

(** [ensureOffsetsAreByteOffsets(dir, output)]. *)
Definition ensureOffsetsAreByteOffsets (st : Store) (o : Output)
  : option Store :=
  let files : Cache := empty in
  '(files, dh) ← fix_all files (defs_h st) (Defs o);
  '(files, rh) ← fix_all files (refs_h st) (Refs o);
  '(files, doch) ← fix_all files (docs_h st) (Docs o);
  '(_, ah) ← fix_all files (anns_h st) (Anns o);
  Some (mkStore dh rh doch ah).
End Fix.

(* ------------------------------------------------------------------ *)
(** ** The pipeline ([NormalizeData]) *)

(** The collaborators [NormalizeData] calls and whose code is not part of
    this file: [filepath.Join], [graph.MakeURI], the validators
    [ValidateRefs], [ValidateDefs] and [ValidateDocs] (the first error they
    report, if any), [sort.Sort] as a function sorting a list by a [Less]
    function, and the [Less] methods of [graph.Defs], [graph.Refs],
    [graph.Docs] and [ann.Anns]. *)
Record Collaborators (error : Type) := {
  join : string -> string -> string;
  MakeURI : string -> string;
  ValidateRefs : list Ref.t -> option error;
  ValidateDefs : list Def.t -> option error;
  ValidateDocs : list Doc.t -> option error;
  sort_by : forall A : Type, (A -> A -> bool) -> list A -> list A;
  defs_less : Def.t -> Def.t -> bool;
  refs_less : Ref.t -> Ref.t -> bool;
  docs_less : Doc.t -> Doc.t -> bool;
  anns_less : Ann.t -> Ann.t -> bool
}.
Arguments join {_} _.
Arguments MakeURI {_} _.
Arguments ValidateRefs {_} _.
Arguments ValidateDefs {_} _.
Arguments ValidateDocs {_} _.
Arguments sort_by {_} _ {_}.
Arguments defs_less {_} _.
Arguments refs_less {_} _.
Arguments docs_less {_} _.
Arguments anns_less {_} _.

(** A [for _, x := range ps { ...x... }] loop that rewrites each pointee with
    [f]; [None] is the nil-pointer panic. *)
Fixpoint upd_all {A} (f : A -> A) (h : gmap N A) (ps : list N)
  : option (gmap N A) :=
  match ps with
  | [] => Some h
  | p :: ps' =>
    match h !! p with
    | None => None
    | Some a => upd_all f (<[p := f a]> h) ps'
    end
  end.

(** Dereferencing every pointer of a slice. *)
Fixpoint derefs {A} (h : gmap N A) (ps : list N) : option (list A) :=
  match ps with
  | [] => Some []
  | p :: ps' =>
    a ← h !! p;
    l ← derefs h ps';
    Some (a :: l)
  end.

(** Each pointer of a slice with its pointee. *)
Fixpoint deref_pairs {A} (h : gmap N A) (ps : list N) : option (list (N * A)) :=
  match ps with
  | [] => Some []
  | p :: ps' =>
    a ← h !! p;
    l ← deref_pairs h ps';
    Some ((p, a) :: l)
  end.

(** The outcome of [NormalizeData]: it returns [nil] or an error, with the
    heaps and the [Output] as they are then, or a panic escapes it. *)
Inductive Outcome (error : Type) :=
  | Ok (st : Store) (o : Output)
  | Err (e : error) (st : Store) (o : Output)
  | Panic.
Arguments Ok {_} _ _.
Arguments Err {_} _ _ _.
Arguments Panic {_}.

Definition outcome_store {error} (r : Outcome error) : option Store :=
  match r with
  | Ok st _ => Some st
  | Err _ st _ => Some st
  | Panic => None
  end.

Definition is_err {error} (r : Outcome error) : bool :=
  match r with Err _ _ _ => true | _ => false end.

Section Normalize.
Context {error : Type} (env : Collaborators error).

(** Lines 113-117: [if ref.DefRepo != "" { ref.DefRepo = graph.MakeURI(...) }]. *)
Definition rewrite_ref (r : Ref.t) : Ref.t :=
  if String.eqb (Ref.DefRepo r) "" then r
  else Ref.set_DefRepo r (MakeURI env (Ref.DefRepo r)).

(** Lines 119-129: the value of [convertOffsets]. *)
Definition convert_offsets (offsetType : OffsetType) (unitType : string)
  : bool :=
  match offsetType with
  | OffsetChar => true
  | OffsetByte => false
  | OffsetUnspecified =>
    negb (String.eqb unitType "GoPackage") &&
    negb (String.eqb unitType "Dockerfile") &&
    negb (String.prefix "Java" unitType)
  end.

(** Lines 113-133: the reference rewrite, then the conversion when
    [convertOffsets] holds. *)
Definition rewrite_and_convert (offsetType : OffsetType) (unitType : string)
  (dir : string) (fs : FileSystem) (st : Store) (o : Output) : option Store :=
  rh ← upd_all rewrite_ref (refs_h st) (Refs o);
  let st1 := mkStore (defs_h st) rh (docs_h st) (anns_h st) in
  if convert_offsets offsetType unitType
  then ensureOffsetsAreByteOffsets (join env) fs dir st1 o
  else Some st1.

(** Lines 135-143: [ValidateRefs], then [ValidateDefs], then
    [ValidateDocs]; [Some (Some e)] is the first error, [Some None] that
    all three pass, [None] a nil-pointer panic in a validator. *)
Definition run_validators (st : Store) (o : Output) : option (option error) :=
  rs ← derefs (refs_h st) (Refs o);
  match ValidateRefs env rs with
  | Some e => Some (Some e)
  | None =>
    ds ← derefs (defs_h st) (Defs o);
    match ValidateDefs env ds with
    | Some e => Some (Some e)
    | None =>
      dcs ← derefs (docs_h st) (Docs o);
      Some (ValidateDocs env dcs)
    end
  end.

(** [sort.Sort] on one slice of pointers: [Less] compares the pointees; a
    slice of fewer than two elements is left alone (no [Less] call),
    otherwise every element is dereferenced. *)
Definition sort_slice {A} (less : A -> A -> bool) (h : gmap N A)
  (ps : list N) : option (list N) :=
  if (length ps <? 2)%nat then Some ps
  else
    pvs ← deref_pairs h ps;
    Some (map fst (sort_by env (fun x y : N * A => less x.2 y.2) pvs)).

(** [sortedOutput]. *)
Definition sortedOutput (st : Store) (o : Output) : option Output :=
  ds ← sort_slice (defs_less env) (defs_h st) (Defs o);
  rs ← sort_slice (refs_less env) (refs_h st) (Refs o);
  dcs ← sort_slice (docs_less env) (docs_h st) (Docs o);
  ans ← sort_slice (anns_less env) (anns_h st) (Anns o);
  Some (mkOutput ds rs dcs ans).

(** [NormalizeData(offsetType, unitType, dir, o)], run on the file system
    [fs] and the heaps [st]. *)
Definition NormalizeData (offsetType : OffsetType) (unitType : string)
  (dir : string) (fs : FileSystem) (st : Store) (o : Output)
  : Outcome error :=
  match rewrite_and_convert offsetType unitType dir fs st o with
  | None => Panic
  | Some st2 =>
    match run_validators st2 o with
    | None => Panic
    | Some (Some e) => Err e st2 o
    | Some None =>
      match sortedOutput st2 o with
      | None => Panic
      | Some o' => Ok st2 o'
      end
    end
  end.
End Normalize.

(* ------------------------------------------------------------------ *)
(** ** A concrete instance of the collaborators *)

(** Insertion sort, an implementation of [sort.Sort]'s contract. *)
Fixpoint ins {A} (lt : A -> A -> bool) (x : A) (l : list A) : list A :=
  match l with
  | [] => [x]
  | y :: l' => if lt x y then x :: l else y :: ins lt x l'
  end.

Definition isort {A} (lt : A -> A -> bool) (l : list A) : list A :=
  fold_right (ins lt) [] l.

#[export] Instance DefKey_eq_dec : EqDecision DefKey.t.
Proof. solve_decision. Defined.
#[export] Instance DefDoc_eq_dec : EqDecision DefDoc.t.
Proof. solve_decision. Defined.
#[export] Instance Def_eq_dec : EqDecision Def.t.
Proof. solve_decision. Defined.
#[export] Instance Ref_eq_dec : EqDecision Ref.t.
Proof. solve_decision. Defined.
#[export] Instance Doc_eq_dec : EqDecision Doc.t.
Proof. solve_decision. Defined.
#[export] Instance Ann_eq_dec : EqDecision Ann.t.
Proof. solve_decision. Defined.

#[export] Program Instance DefKey_countable : Countable DefKey.t :=
  inj_countable'
    (fun k => (DefKey.Repo k, DefKey.CommitID k, DefKey.UnitType k,
               DefKey.Unit k, DefKey.Path k))
    (fun '(a, b, c, d, e) => DefKey.mk a b c d e) _.
Next Obligation. by intros []. Qed.

#[export] Program Instance DefDoc_countable : Countable DefDoc.t :=
  inj_countable' (fun d => (DefDoc.Format d, DefDoc.Data d))
    (fun '(a, b) => DefDoc.mk a b) _.
Next Obligation. by intros []. Qed.

#[export] Program Instance Def_countable : Countable Def.t :=
  inj_countable'
    (fun d => (Def.Key d, Def.Name d, Def.Kind d, Def.File d, Def.DefStart d,
               Def.DefEnd d, Def.Exported d, Def.Local d, Def.Test d,
               Def.Data d, Def.Docs d, Def.TreePath d))
    (fun '(a, b, c, d, e, f, g, h, i, j, k, l) =>
       Def.mk a b c d e f g h i j k l) _.
Next Obligation. by intros []. Qed.

#[export] Program Instance Ref_countable : Countable Ref.t :=
  inj_countable'
    (fun r => (Ref.DefRepo r, Ref.DefUnitType r, Ref.DefUnit r, Ref.DefPath r,
               Ref.Repo r, Ref.CommitID r, Ref.UnitType r, Ref.Unit r,
               Ref.Def r, Ref.File r, Ref.Start r, Ref.End_ r))
    (fun '(a, b, c, d, e, f, g, h, i, j, k, l) =>
       Ref.mk a b c d e f g h i j k l) _.
Next Obligation. by intros []. Qed.

#[export] Program Instance Doc_countable : Countable Doc.t :=
  inj_countable'
    (fun d => (Doc.Key d, Doc.Format d, Doc.Data d, Doc.File d, Doc.Start d,
               Doc.End_ d))
    (fun '(a, b, c, d, e, f) => Doc.mk a b c d e f) _.
Next Obligation. by intros []. Qed.

#[export] Program Instance Ann_countable : Countable Ann.t :=
  inj_countable'
    (fun a => (Ann.Repo a, Ann.CommitID a, Ann.UnitType a, Ann.Unit a,
               Ann.File a, Ann.Start a, Ann.End_ a, Ann.Type_ a, Ann.Data a))
    (fun '(a, b, c, d, e, f, g, h, i) => Ann.mk a b c d e f g h i) _.
Next Obligation. by intros []. Qed.

(** A comparator that orders records by their encoding: a strict total
    order. *)
Definition enc_less `{Countable A} (x y : A) : bool :=
  Pos.ltb (encode x) (encode y).

(** Paths are joined with a slash, [MakeURI] is the identity, the
    validators accept everything, [sort.Sort] is insertion sort and records
    are ordered by their encoding. *)
Definition env0 : Collaborators string := {|
  join := fun d f => (d ++ "/" ++ f)%string;
  MakeURI := fun s => s;
  ValidateRefs := fun _ => None;
  ValidateDefs := fun _ => None;
  ValidateDocs := fun _ => None;
  sort_by := @isort;
  defs_less := enc_less;
  refs_less := enc_less;
  docs_less := enc_less;
  anns_less := enc_less
|}.

Definition mk_def (file : string) (s e : Z) : Def.t :=
  Def.mk (DefKey.mk "r" "" "Python" "u" "p") "n" "func" file s e
    false false false [] [] "".

(** The file system of the examples: [/r/a.txt] holds "e!" (accented e),
    [/r/cafe.txt] the decomposed "cafe" with an accent, [/r/sub] is a
    directory. *)
Definition fs0 : FileSystem :=
  <["/r/a.txt" := FRegular (Some e_bang)]>
  (<["/r/cafe.txt" := FRegular (Some cafe_nfd)]>
  (<["/r/sub" := FOther]> empty)).

Definition store_of_defs (ds : list (N * Def.t)) : Store :=
  mkStore (list_to_map ds) empty empty empty.

Definition defs_output (ps : list N) : Output := mkOutput ps [] [] [].

(** Four definitions: one whose end offset is past the end of its file, one
    with valid offsets in the same file, one in a file that does not exist
    and one with no file. *)
Definition mixed_store : Store :=
  store_of_defs [(0%N, mk_def "a.txt" 1 100); (1%N, mk_def "a.txt" 1 2);
                 (2%N, mk_def "missing.txt" 3 5); (3%N, mk_def "" 0 7)].

Definition mixed_output : Output := defs_output [0%N; 1%N; 2%N; 3%N].

Definition mk_ref (defrepo file : string) (s e : Z) : Ref.t :=
  Ref.mk defrepo "Python" "u" "p" "r" "" "Python" "u" false file s e.

(** One reference into [/r/a.txt], to a definition of another repository. *)
Definition ref_store : Store :=
  mkStore empty {[0%N := mk_ref "github.com/x/y" "a.txt" 1 2]} empty empty.

Definition ref_output : Output := mkOutput [] [0%N] [] [].

(** The collaborators of [env0] with a [MakeURI] that changes its input. *)
Definition env_uri : Collaborators string := {|
  join := fun d f => (d ++ "/" ++ f)%string;
  MakeURI := fun s => ("https://" ++ s)%string;
  ValidateRefs := fun _ => None;
  ValidateDefs := fun _ => None;
  ValidateDocs := fun _ => None;
  sort_by := @isort;
  defs_less := enc_less;
  refs_less := enc_less;
  docs_less := enc_less;
  anns_less := enc_less
|}.

(** [fs0] with one more file, which no record of [mixed_store] names. *)
Definition fs1 : FileSystem := <["/r/other.txt" := FRegular (Some [120])]> fs0.

(* ------------------------------------------------------------------ *)
(** ** Conversion of one record *)

Class PositionedLaws (A : Type) `{Positioned A} := {
  pfile_set_pos : forall a s e, pfile (set_pos a s e) = pfile a;
  pstart_set_pos : forall a s e, pstart (set_pos a s e) = s;
  pend_set_pos : forall a s e, pend (set_pos a s e) = e;
  set_pos_id : forall a, set_pos a (pstart a) (pend a) = a
}.

#[export] Instance Def_laws : PositionedLaws Def.t.
Proof. split; by intros []. Qed.
#[export] Instance Ref_laws : PositionedLaws Ref.t.
Proof. split; by intros []. Qed.
#[export] Instance Doc_laws : PositionedLaws Doc.t.
Proof. split; by intros []. Qed.
#[export] Instance Ann_laws : PositionedLaws Ann.t.
Proof. split; by intros []. Qed.

(** What [fix] makes of one offset field: 0 stays, any other offset is
    looked up ([None]: the lookup panics). *)
Definition conv_field (tbl : list Z) (x : Z) : option Z :=
  if x =? 0 then Some x else byte_offset_of_rune tbl x.

(** The content [fix] converts a record against: none when the file name is
    empty, the joined path is not a regular file, or it cannot be read. *)
Definition resolve (join : string -> string -> string) (fs : FileSystem)
  (dir filename : string) : option (list Z) :=
  if String.eqb filename "" then None
  else match fs !! join dir filename with
       | Some (FRegular c) => c
       | _ => None
       end.

(** [fix] without the cache: the content is read again for every record. *)
Definition fix_pure `{Positioned A} (join : string -> string -> string)
  (fs : FileSystem) (dir : string) (a : A) : A :=
  match resolve join fs dir (pfile a) with
  | None => a
  | Some data =>
    match fix_offsets (byte_offsets_for_content data) [pstart a; pend a] with
    | [s; e] => set_pos a s e
    | _ => a
    end
  end.

(** The record [a'] is [a] converted field by field: both fields converted
    when both lookups succeed; the start converted and the end kept when
    only the end's lookup fails; [a] itself when the start's lookup fails or
    there is no file to convert against. *)
Definition converted_record `{Positioned A} (join : string -> string -> string)
  (fs : FileSystem) (dir : string) (a a' : A) : Prop :=
  match resolve join fs dir (pfile a) with
  | None => a' = a
  | Some data =>
    let tbl := byte_offsets_for_content data in
    match conv_field tbl (pstart a), conv_field tbl (pend a) with
    | Some s', Some e' => a' = set_pos a s' e'
    | Some s', None => a' = set_pos a s' (pend a)
    | None, _ => a' = a
    end
  end.

(** Every cached index is the index of the file's current content. *)
Definition cache_ok (fs : FileSystem) (files : Cache) : Prop :=
  forall path f, files !! path = Some f ->
    exists data, read_file fs path = Some data /\
                 f = byte_offsets_for_content data.

(** [ensureOffsetsAreByteOffsets] without the cache. *)
Definition convert_pure (join : string -> string -> string) (fs : FileSystem)
  (dir : string) (st : Store) (o : Output) : option Store :=
  dh ← upd_all (fix_pure join fs dir) (defs_h st) (Defs o);
  rh ← upd_all (fix_pure join fs dir) (refs_h st) (Refs o);
  doch ← upd_all (fix_pure join fs dir) (docs_h st) (Docs o);
  ah ← upd_all (fix_pure join fs dir) (anns_h st) (Anns o);
  Some (mkStore dh rh doch ah).

Lemma fix_offsets_two tbl s e :
  fix_offsets tbl [s; e] =
  match conv_field tbl s with
  | None => [s; e]
  | Some s' => match conv_field tbl e with
               | None => [s'; e]
               | Some e' => [s'; e']
               end
  end.
Proof.
  unfold conv_field; simpl.
  destruct (s =? 0) eqn:Hs;
    [|destruct (byte_offset_of_rune tbl s) eqn:Hb; [|reflexivity]];
    destruct (e =? 0); try reflexivity;
    destruct (byte_offset_of_rune tbl e); reflexivity.
Qed.

Lemma fix_pure_converted `{PositionedLaws A} join fs dir (a : A) :
  converted_record join fs dir a (fix_pure join fs dir a).
Proof.
  unfold converted_record, fix_pure.
  destruct (resolve join fs dir (pfile a)) as [data|]; [|reflexivity].
  rewrite fix_offsets_two.
  destruct (conv_field (byte_offsets_for_content data) (pstart a)),
    (conv_field (byte_offsets_for_content data) (pend a));
    try reflexivity; apply set_pos_id.
Qed.

Lemma cache_ok_empty fs : cache_ok fs empty.
Proof. intros path f Hf. by rewrite lookup_empty in Hf. Qed.

Lemma fix_coherent `{Positioned A} join fs dir (files : Cache) (a : A) :
  cache_ok fs files ->
  cache_ok fs (fix_ join fs dir files a).1 /\
  (fix_ join fs dir files a).2 = fix_pure join fs dir a.
Proof.
  intros Hok. unfold fix_, fix_pure, resolve.
  destruct (String.eqb (pfile a) "") eqn:He; [by split|].
  destruct (fs !! join dir (pfile a)) as [[c|]|] eqn:Hfs; try by split.
  unfold addOrGetFile.
  destruct (files !! join dir (pfile a)) as [f|] eqn:Hc.
  - destruct (Hok _ _ Hc) as (data & Hrd & ->).
    unfold read_file in Hrd. rewrite Hfs in Hrd. subst c.
    destruct (fix_offsets _ _) as [|? [|? []]]; by split.
  - unfold read_file. rewrite Hfs.
    destruct c as [data|]; [|by split].
    split.
    + destruct (fix_offsets _ _) as [|? [|? []]]; simpl;
        intros path f Hl; apply lookup_insert_Some in Hl as [[<- <-]|[_ Hl]];
        try (exists data; unfold read_file; by rewrite Hfs);
        by apply Hok.
    + destruct (fix_offsets _ _) as [|? [|? []]]; reflexivity.
Qed.

(* ------------------------------------------------------------------ *)
(** ** The loops over a slice *)

Section Loops.
Context {A : Type}.
Implicit Types (h : gmap N A) (ps : list N).

Lemma upd_all_preserve (f : A -> A) (P : A -> Prop) h ps h' :
  (forall a, P a -> P (f a)) ->
  upd_all f h ps = Some h' ->
  forall p a, h !! p = Some a -> P a -> exists a', h' !! p = Some a' /\ P a'.
Proof.
  intros Hf. revert h. induction ps as [|q ps IH]; intros h Hu p a Hp HP; simpl in Hu.
  - injection Hu as <-. eauto.
  - destruct (h !! q) as [b|] eqn:Hq; [|discriminate].
    destruct (decide (p = q)) as [->|Hne].
    + rewrite Hq in Hp. injection Hp as ->.
      apply (IH _ Hu q (f a)); [by rewrite lookup_insert_eq | by apply Hf].
    + apply (IH _ Hu p a); [by rewrite lookup_insert_ne | done].
Qed.

Lemma upd_all_notin (f : A -> A) h ps h' p :
  upd_all f h ps = Some h' -> p ∉ ps -> h' !! p = h !! p.
Proof.
  revert h. induction ps as [|q ps IH]; intros h Hu Hp; simpl in Hu.
  - by injection Hu as <-.
  - destruct (h !! q) as [b|]; [|discriminate].
    apply not_elem_of_cons in Hp as [Hne Hp].
    rewrite (IH _ Hu Hp). by rewrite lookup_insert_ne.
Qed.

Lemma upd_all_nodup (f : A -> A) h ps h' :
  NoDup ps -> upd_all f h ps = Some h' ->
  forall p a, p ∈ ps -> h !! p = Some a -> h' !! p = Some (f a).
Proof.
  revert h. induction ps as [|q ps IH]; intros h Hnd Hu p a Hin Hp; simpl in Hu.
  - by apply not_elem_of_nil in Hin.
  - pose proof (NoDup_cons_1_1 _ _ Hnd) as Hq.
    apply NoDup_cons_1_2 in Hnd.
    destruct (h !! q) as [b|] eqn:Hhq; [|discriminate].
    apply elem_of_cons in Hin as [->|Hin].
    + rewrite (upd_all_notin _ _ _ _ _ Hu Hq). rewrite Hhq in Hp.
      injection Hp as ->. by rewrite lookup_insert_eq.
    + apply (IH _ Hnd Hu p a Hin).
      rewrite lookup_insert_ne; [done|]. intros ->. contradiction.
Qed.

Lemma upd_all_image (f : A -> A) h ps h' :
  upd_all f h ps = Some h' ->
  forall p, p ∈ ps -> exists a, h' !! p = Some (f a).
Proof.
  revert h. induction ps as [|q ps IH]; intros h Hu p Hin; simpl in Hu.
  - by apply not_elem_of_nil in Hin.
  - destruct (h !! q) as [b|] eqn:Hhq; [|discriminate].
    destruct (decide (p ∈ ps)) as [Hin'|Hnin]; [by apply (IH _ Hu)|].
    apply elem_of_cons in Hin as [->|]; [|contradiction].
    rewrite (upd_all_notin _ _ _ _ _ Hu Hnin). exists b.
    by rewrite lookup_insert_eq.
Qed.

Lemma upd_all_fixed (f : A -> A) h ps :
  (forall p, p ∈ ps -> exists a, h !! p = Some a /\ f a = a) ->
  upd_all f h ps = Some h.
Proof.
  revert h. induction ps as [|q ps IH]; intros h Hfix; simpl; [done|].
  destruct (Hfix q (proj2 (elem_of_cons _ _ _) (or_introl eq_refl)))
    as (a & Ha & Hfa).
  rewrite Ha, Hfa, insert_id by done.
  apply IH. intros p Hp. apply Hfix. apply elem_of_cons. by right.
Qed.

Lemma upd_all_total (f : A -> A) h ps :
  Forall (fun p => is_Some (h !! p)) ps ->
  exists h', upd_all f h ps = Some h'.
Proof.
  revert h. induction ps as [|q ps IH]; intros h Hall; simpl; [eauto|].
  inversion Hall as [|? ? [a Ha] Hall']; subst. rewrite Ha.
  apply IH. eapply Forall_impl; [|exact Hall']. intros p [b Hb].
  destruct (decide (p = q)) as [->|Hne].
  - rewrite lookup_insert_eq. eauto.
  - rewrite lookup_insert_ne by done. eauto.
Qed.

Lemma upd_all_dom (f : A -> A) h ps h' :
  upd_all f h ps = Some h' ->
  forall p, is_Some (h !! p) -> is_Some (h' !! p).
Proof.
  intros Hu p [a Ha].
  destruct (upd_all_preserve f (fun _ => True) h ps h' (fun _ _ => I) Hu p a Ha I)
    as (a' & Ha' & _).
  eauto.
Qed.

(** Rewriting every pointee of a slice does not depend on the order of
    the slice: each step touches only its own pointer. *)
Lemma upd_all_perm (f : A -> A) h ps ps' :
  ps ≡ₚ ps' -> upd_all f h ps = upd_all f h ps'.
Proof.
  intros Hperm. revert h. induction Hperm as [|x l l' _ IH|x y l|l l' l'' _ IH1 _ IH2];
    intros h; simpl.
  - reflexivity.
  - destruct (h !! x); [apply IH | reflexivity].
  - destruct (decide (x = y)) as [->|Hne]; [reflexivity|].
    destruct (h !! y) as [b|] eqn:Hy, (h !! x) as [a|] eqn:Hx;
      rewrite ?lookup_insert_ne, ?Hx, ?Hy by congruence; try reflexivity.
    by rewrite insert_insert_ne by congruence.
  - by rewrite IH1, IH2.
Qed.
End Loops.

Lemma fix_all_pure `{Positioned A} join fs dir (files : Cache) (h : gmap N A) ps :
  cache_ok fs files ->
  match fix_all join fs dir files h ps with
  | Some (files', h') =>
    cache_ok fs files' /\ upd_all (fix_pure join fs dir) h ps = Some h'
  | None => upd_all (fix_pure join fs dir) h ps = None
  end.
Proof.
  revert files h. induction ps as [|p ps IH]; intros files h Hok; simpl; [done|].
  destruct (h !! p) as [a|]; [|done].
  destruct (fix_coherent join fs dir files a Hok) as [Hok' Ha'].
  destruct (fix_ join fs dir files a) as [files' a'] eqn:E; simpl in *.
  subst a'. by apply IH.
Qed.

(** The cache of [ensureOffsetsAreByteOffsets] is transparent. *)
Lemma ensure_pure join fs dir st o :
  ensureOffsetsAreByteOffsets join fs dir st o = convert_pure join fs dir st o.
Proof.
  unfold ensureOffsetsAreByteOffsets, convert_pure.
  pose proof (fix_all_pure join fs dir empty (defs_h st) (Defs o)
                (cache_ok_empty fs)) as H1.
  destruct (fix_all join fs dir empty (defs_h st) (Defs o)) as [[f1 dh]|];
    [|by rewrite H1].
  destruct H1 as [Hok1 ->]. simpl.
  pose proof (fix_all_pure join fs dir f1 (refs_h st) (Refs o) Hok1) as H2.
  destruct (fix_all join fs dir f1 (refs_h st) (Refs o)) as [[f2 rh]|];
    [|by rewrite H2].
  destruct H2 as [Hok2 ->]. simpl.
  pose proof (fix_all_pure join fs dir f2 (docs_h st) (Docs o) Hok2) as H3.
  destruct (fix_all join fs dir f2 (docs_h st) (Docs o)) as [[f3 doch]|];
    [|by rewrite H3].
  destruct H3 as [Hok3 ->]. simpl.
  pose proof (fix_all_pure join fs dir f3 (anns_h st) (Anns o) Hok3) as H4.
  destruct (fix_all join fs dir f3 (anns_h st) (Anns o)) as [[f4 ah]|];
    [|by rewrite H4].
  destruct H4 as [_ ->]. reflexivity.
Qed.

(* ------------------------------------------------------------------ *)
(** ** Dereferencing *)

Definition present {A} (h : gmap N A) (p : N) : bool :=
  match h !! p with Some _ => true | None => false end.

(** No pointer of the [Output] is nil. *)
Definition wf_output (st : Store) (o : Output) : bool :=
  forallb (present (defs_h st)) (Defs o) &&
  forallb (present (refs_h st)) (Refs o) &&
  forallb (present (docs_h st)) (Docs o) &&
  forallb (present (anns_h st)) (Anns o).

(** No pointer occurs twice in a slice of the [Output]. *)
Definition nodup_output (o : Output) : Prop :=
  NoDup (Defs o) /\ NoDup (Refs o) /\ NoDup (Docs o) /\ NoDup (Anns o).

Section Deref.
Context {A : Type}.
Implicit Types (h : gmap N A) (ps : list N).

Lemma forallb_present h ps :
  forallb (present h) ps = true <-> Forall (fun p => is_Some (h !! p)) ps.
Proof.
  induction ps as [|p ps IH]; simpl.
  - split; constructor.
  - rewrite andb_true_iff, IH. unfold present.
    split.
    + intros [Hp Hps]. constructor; [|done].
      destruct (h !! p); [eauto | discriminate].
    + intros Hall. inversion Hall as [|? ? [a Ha] Hps]; subst.
      by rewrite Ha.
Qed.

Lemma Forall_present_upd (f : A -> A) h ps h' qs :
  upd_all f h ps = Some h' ->
  Forall (fun p => is_Some (h !! p)) qs ->
  Forall (fun p => is_Some (h' !! p)) qs.
Proof.
  intros Hu Hall. eapply Forall_impl; [|exact Hall].
  intros p. by apply (upd_all_dom f h ps h').
Qed.

Lemma derefs_total h ps :
  Forall (fun p => is_Some (h !! p)) ps -> exists vs, derefs h ps = Some vs.
Proof.
  induction 1 as [|p ps [a Ha] _ [vs Hvs]]; simpl; [eauto|].
  rewrite Ha, Hvs. eauto.
Qed.

Lemma deref_pairs_total h ps :
  Forall (fun p => is_Some (h !! p)) ps -> exists pvs, deref_pairs h ps = Some pvs.
Proof.
  induction 1 as [|p ps [a Ha] _ [pvs Hpvs]]; simpl; [eauto|].
  rewrite Ha, Hpvs. eauto.
Qed.

Lemma deref_pairs_spec h ps pvs :
  deref_pairs h ps = Some pvs ->
  map fst pvs = ps /\ Forall (fun pv => h !! pv.1 = Some pv.2) pvs /\
  derefs h ps = Some (map snd pvs).
Proof.
  revert pvs. induction ps as [|p ps IH]; intros pvs Hd; simpl in *.
  - injection Hd as <-. repeat split; constructor.
  - destruct (h !! p) as [a|] eqn:Ha; [|discriminate]. simpl in Hd.
    destruct (deref_pairs h ps) as [l|]; [|discriminate]. simpl in Hd.
    injection Hd as <-. destruct (IH l eq_refl) as (Hfst & Hall & Hd).
    simpl. rewrite Hfst, Hd. split; [done|split; [by constructor|done]].
Qed.

Lemma derefs_of_pairs h (pvs : list (N * A)) :
  Forall (fun pv => h !! pv.1 = Some pv.2) pvs ->
  derefs h (map fst pvs) = Some (map snd pvs).
Proof.
  induction 1 as [|[p a] pvs Ha _ IH]; simpl in *; [done|].
  by rewrite Ha, IH.
Qed.

Lemma derefs_length h ps vs :
  derefs h ps = Some vs -> length vs = length ps.
Proof.
  revert vs. induction ps as [|p ps IH]; intros vs Hd; simpl in Hd.
  - by injection Hd as <-.
  - destruct (h !! p); [|discriminate]. simpl in Hd.
    destruct (derefs h ps) as [l|] eqn:E; [|discriminate].
    injection Hd as <-. simpl. f_equal. by apply IH.
Qed.

Lemma derefs_perm h ps ps' vs :
  ps ≡ₚ ps' -> derefs h ps = Some vs ->
  exists vs', derefs h ps' = Some vs' /\ vs ≡ₚ vs'.
Proof.
  intros Hperm. revert vs.
  induction Hperm as [|x l l' _ IH|x y l|l l' l'' _ IH1 _ IH2];
    intros vs Hd; simpl in *.
  - eauto.
  - destruct (h !! x) as [a|]; [|discriminate]. simpl in Hd.
    destruct (derefs h l) as [vl|]; [|discriminate]. simpl in Hd.
    injection Hd as <-. destruct (IH vl eq_refl) as (vl' & -> & Hp).
    simpl. eauto.
  - destruct (h !! y) as [b|]; [|discriminate]. simpl in Hd.
    destruct (h !! x) as [a|]; [|discriminate]. simpl in Hd.
    destruct (derefs h l) as [vl|]; [|discriminate]. simpl in Hd.
    injection Hd as <-. exists (a :: b :: vl). split; [done|]. constructor.
  - destruct (IH1 vs Hd) as (v1 & Hd1 & Hp1).
    destruct (IH2 v1 Hd1) as (v2 & Hd2 & Hp2).
    exists v2. split; [done|]. by transitivity v1.
Qed.
End Deref.

(* ------------------------------------------------------------------ *)
(** ** Sorting *)

(** [Less] is a strict weak ordering, what [sort.Sort] requires. *)
Definition strict_weak {A} (lt : A -> A -> bool) : Prop :=
  (forall x, lt x x = false) /\
  (forall x y z, lt x y = true -> lt y z = true -> lt x z = true) /\
  (forall x y z, lt x z = true -> lt x y = true \/ lt y z = true).

(** [Less] is a strict total order: distinct records are comparable. *)
Definition strict_total {A} (lt : A -> A -> bool) : Prop :=
  (forall x, lt x x = false) /\
  (forall x y z, lt x y = true -> lt y z = true -> lt x z = true) /\
  (forall x y, x <> y -> lt x y = true \/ lt y x = true).

(** The contract of [sort.Sort]: it permutes the slice, and sorts it when
    [Less] is a strict weak ordering. *)
Definition sort_contract
  (sort : forall A : Type, (A -> A -> bool) -> list A -> list A) : Prop :=
  (forall A (lt : A -> A -> bool) l, sort A lt l ≡ₚ l) /\
  (forall A (lt : A -> A -> bool) l,
     strict_weak lt -> Sorted (fun x y => lt y x = false) (sort A lt l)).

Lemma strict_total_pairs {A} (lt : A -> A -> bool) :
  strict_total lt -> strict_weak (fun x y : N * A => lt x.2 y.2).
Proof.
  intros (Hirr & Htr & Htot). split; [|split].
  - intros x. apply Hirr.
  - intros x y z. apply Htr.
  - intros [p a] [q b] [r c]; simpl. intros Hac.
    destruct (lt a b) eqn:Hab; [by left|right].
    destruct (lt b c) eqn:Hbc; [done|exfalso].
    assert (a <> b) as Hne by (intros <-; congruence).
    destruct (Htot a b Hne) as [|Hba]; [congruence|].
    rewrite (Htr b a c Hba Hac) in Hbc. discriminate.
Qed.

Lemma sorted_map {A B} (R : B -> B -> Prop) (g : A -> B) (l : list A) :
  Sorted (fun x y => R (g x) (g y)) l -> Sorted R (map g l).
Proof.
  induction 1 as [|x l _ IH Hhd]; simpl; constructor; [done|].
  destruct Hhd; simpl; by constructor.
Qed.

(** Two sorted permutations of each other are equal when the order is
    antisymmetric. *)
Lemma sorted_perm_unique {A} (le : A -> A -> Prop) :
  (forall x y z, le x y -> le y z -> le x z) ->
  (forall x y, le x y -> le y x -> x = y) ->
  forall l1 l2, Sorted le l1 -> Sorted le l2 -> l1 ≡ₚ l2 -> l1 = l2.
Proof.
  intros Htr Hanti l1 l2 H1 H2 Hp.
  apply (Sorted_StronglySorted Htr) in H1, H2.
  revert l2 H2 Hp. induction H1 as [|a l1 H1 IH Ha]; intros l2 H2 Hp.
  - symmetry. by apply Permutation_nil.
  - destruct l2 as [|b l2].
    + apply Permutation_sym, Permutation_nil in Hp. discriminate.
    + inversion H2 as [|? ? H2' Hb]; subst.
      assert (a = b) as <-.
      { assert (In a (b :: l2)) as [->|Ha2]
          by (eapply Permutation_in; [exact Hp | left; done]); [done|].
        assert (In b (a :: l1)) as [->|Hb1]
          by (eapply Permutation_in; [symmetry; exact Hp | left; done]); [done|].
        apply Hanti.
        - by apply (proj1 (List.Forall_forall _ _) Ha).
        - by apply (proj1 (List.Forall_forall _ _) Hb). }
      f_equal. apply IH; [done|]. by apply Permutation_cons_inv in Hp.
Qed.

Lemma strict_total_le_trans {A} (lt : A -> A -> bool) :
  strict_total lt ->
  forall x y z, lt y x = false -> lt z y = false -> lt z x = false.
Proof.
  intros (Hirr & Htr & Htot) x y z Hyx Hzy.
  destruct (lt z x) eqn:Hzx; [exfalso|done].
  assert (x <> y) as Hne by (intros <-; congruence).
  destruct (Htot x y Hne) as [Hxy|]; [|congruence].
  rewrite (Htr z x y Hzx Hxy) in Hzy. discriminate.
Qed.

Lemma strict_total_le_antisym `{EqDecision A} (lt : A -> A -> bool) :
  strict_total lt -> forall x y, lt y x = false -> lt x y = false -> x = y.
Proof.
  intros (_ & _ & Htot) x y Hyx Hxy.
  destruct (decide (x = y)) as [|Hne]; [done|].
  destruct (Htot x y Hne); congruence.
Qed.

Section Sort.
Context {error : Type} (env : Collaborators error).
Context `{EqDecision A} (less : A -> A -> bool).
Hypothesis Hsort : sort_contract (@sort_by _ env).
Hypothesis Hless : strict_total less.

Lemma sort_slice_spec (h : gmap N A) ps ps' :
  sort_slice env less h ps = Some ps' ->
  ps' ≡ₚ ps /\
  forall vs, derefs h ps = Some vs ->
    exists vs', derefs h ps' = Some vs' /\ vs' ≡ₚ vs /\
                Sorted (fun x y => less y x = false) vs'.
Proof using Hsort Hless.
  unfold sort_slice. destruct (length ps <? 2)%nat eqn:Hlen.
  - intros [= <-]. split; [done|]. intros vs Hd. exists vs.
    split; [done|split; [done|]].
    apply Nat.ltb_lt in Hlen. apply derefs_length in Hd.
    destruct vs as [|v [|]]; simpl in *; try lia; repeat constructor.
  - destruct (deref_pairs h ps) as [pvs|] eqn:Hpv; [|discriminate].
    simpl. intros [= <-].
    destruct (deref_pairs_spec h ps pvs Hpv) as (Hfst & Hall & Hd).
    destruct Hsort as [Hperm Hsorted].
    set (sorted := sort_by env (fun x y : N * A => less x.2 y.2) pvs).
    assert (sorted ≡ₚ pvs) as Hsp by apply Hperm.
    split.
    { rewrite <- Hfst. by apply Permutation_map. }
    intros vs Hvs. rewrite Hd in Hvs. injection Hvs as <-.
    exists (map snd sorted). split; [|split].
    + apply derefs_of_pairs.
      apply (Permutation_Forall (Permutation_sym Hsp)) in Hall. done.
    + by apply Permutation_map.
    + apply (sorted_map (fun x y => less y x = false) snd).
      apply (Hsorted _ (fun x y : N * A => less x.2 y.2)).
      by apply strict_total_pairs.
Qed.

Lemma perm_short (l1 l2 : list N) :
  (length l1 < 2)%nat -> l1 ≡ₚ l2 -> l1 = l2.
Proof.
  intros Hlen Hp. destruct l1 as [|x [|]]; simpl in Hlen; try lia.
  - by apply Permutation_nil in Hp.
  - symmetry. by apply Permutation_length_1_inv.
Qed.

(** Sorting two permutations of a slice gives the same records in the
    same order. *)
Lemma sort_slice_det (h : gmap N A) ps1 ps2 q1 q2 :
  ps1 ≡ₚ ps2 ->
  sort_slice env less h ps1 = Some q1 ->
  sort_slice env less h ps2 = Some q2 ->
  derefs h q1 = derefs h q2.
Proof using Type*.
  intros Hp Hs1 Hs2.
  pose proof (Permutation_length Hp) as Hlen.
  destruct (decide (length ps1 < 2)%nat) as [Hlt|Hge].
  - unfold sort_slice in Hs1, Hs2.
    rewrite (proj2 (Nat.ltb_lt _ _) Hlt) in Hs1.
    rewrite <- Hlen, (proj2 (Nat.ltb_lt _ _) Hlt) in Hs2.
    injection Hs1 as <-. injection Hs2 as <-.
    by rewrite (perm_short ps1 ps2 Hlt Hp).
  - assert (exists vs1, derefs h ps1 = Some vs1) as [vs1 Hd1].
    { unfold sort_slice in Hs1.
      rewrite (proj2 (Nat.ltb_ge _ _) (not_lt _ _ Hge)) in Hs1.
      destruct (deref_pairs h ps1) as [pvs|] eqn:Hpv; [|discriminate].
      destruct (deref_pairs_spec h ps1 pvs Hpv) as (_ & _ & Hd). eauto. }
    destruct (derefs_perm h ps1 ps2 vs1 Hp Hd1) as (vs2 & Hd2 & Hp12).
    destruct (sort_slice_spec h ps1 q1 Hs1) as [_ Hq1].
    destruct (sort_slice_spec h ps2 q2 Hs2) as [_ Hq2].
    destruct (Hq1 vs1 Hd1) as (w1 & -> & Hw1 & Hsw1).
    destruct (Hq2 vs2 Hd2) as (w2 & -> & Hw2 & Hsw2).
    f_equal. apply (sorted_perm_unique (fun x y => less y x = false)).
    + intros x y z Hxy Hyz. exact (strict_total_le_trans less Hless x y z Hxy Hyz).
    + intros x y Hxy Hyx. exact (strict_total_le_antisym less Hless x y Hxy Hyx).
    + done.
    + done.
    + rewrite Hw1, Hp12. by symmetry.
Qed.
End Sort.

(* ------------------------------------------------------------------ *)
(** ** The pipeline, step by step *)

Lemma wf_output_spec (st : Store) (o : Output) :
  wf_output st o = true <->
  Forall (fun p => is_Some (defs_h st !! p)) (Defs o) /\
  Forall (fun p => is_Some (refs_h st !! p)) (Refs o) /\
  Forall (fun p => is_Some (docs_h st !! p)) (Docs o) /\
  Forall (fun p => is_Some (anns_h st !! p)) (Anns o).
Proof.
  unfold wf_output. rewrite !andb_true_iff, !forallb_present. tauto.
Qed.

Lemma convert_pure_inv join fs dir st o st' :
  convert_pure join fs dir st o = Some st' ->
  upd_all (fix_pure join fs dir) (defs_h st) (Defs o) = Some (defs_h st') /\
  upd_all (fix_pure join fs dir) (refs_h st) (Refs o) = Some (refs_h st') /\
  upd_all (fix_pure join fs dir) (docs_h st) (Docs o) = Some (docs_h st') /\
  upd_all (fix_pure join fs dir) (anns_h st) (Anns o) = Some (anns_h st').
Proof.
  unfold convert_pure.
  destruct (upd_all _ (defs_h st) _) as [dh|]; [|discriminate]; simpl.
  destruct (upd_all _ (refs_h st) _) as [rh|]; [|discriminate]; simpl.
  destruct (upd_all _ (docs_h st) _) as [doch|]; [|discriminate]; simpl.
  destruct (upd_all _ (anns_h st) _) as [ah|]; [|discriminate]; simpl.
  intros [= <-]. done.
Qed.

Lemma convert_pure_total join fs dir st o :
  wf_output st o = true ->
  exists st', convert_pure join fs dir st o = Some st' /\ wf_output st' o = true.
Proof.
  rewrite wf_output_spec. intros (Hd & Hr & Hdc & Ha).
  unfold convert_pure.
  destruct (upd_all_total (fix_pure join fs dir) _ _ Hd) as [dh Hdh].
  destruct (upd_all_total (fix_pure join fs dir) _ _ Hr) as [rh Hrh].
  destruct (upd_all_total (fix_pure join fs dir) _ _ Hdc) as [doch Hdoch].
  destruct (upd_all_total (fix_pure join fs dir) _ _ Ha) as [ah Hah].
  rewrite Hdh, Hrh, Hdoch, Hah. simpl. eexists; split; [reflexivity|].
  apply wf_output_spec; simpl.
  split; [|split; [|split]]; eapply Forall_present_upd; eauto.
Qed.

Section Pipeline.
Context {error : Type} (env : Collaborators error).
Context (ot : OffsetType) (ut dir : string) (fs : FileSystem).

Lemma rewrite_and_convert_inv st o st2 :
  rewrite_and_convert env ot ut dir fs st o = Some st2 ->
  exists rh, upd_all (rewrite_ref env) (refs_h st) (Refs o) = Some rh /\
    if convert_offsets ot ut
    then convert_pure (join env) fs dir
           (mkStore (defs_h st) rh (docs_h st) (anns_h st)) o = Some st2
    else st2 = mkStore (defs_h st) rh (docs_h st) (anns_h st).
Proof.
  unfold rewrite_and_convert.
  destruct (upd_all (rewrite_ref env) (refs_h st) (Refs o)) as [rh|];
    [|discriminate]; simpl.
  intros Hc. exists rh. split; [done|].
  destruct (convert_offsets ot ut).
  - by rewrite <- ensure_pure.
  - by injection Hc as <-.
Qed.

Lemma rewrite_and_convert_wf st o :
  wf_output st o = true ->
  exists st2, rewrite_and_convert env ot ut dir fs st o = Some st2 /\
              wf_output st2 o = true.
Proof.
  intros Hwf. pose proof Hwf as Hwf'.
  apply wf_output_spec in Hwf as (Hd & Hr & Hdc & Ha).
  destruct (upd_all_total (rewrite_ref env) _ _ Hr) as [rh Hrh].
  assert (wf_output (mkStore (defs_h st) rh (docs_h st) (anns_h st)) o = true)
    as Hwf1.
  { apply wf_output_spec; simpl.
    split; [done|split; [|done]]. eapply Forall_present_upd; eauto. }
  unfold rewrite_and_convert. rewrite Hrh. simpl.
  destruct (convert_offsets ot ut).
  - rewrite ensure_pure. by apply convert_pure_total.
  - eauto.
Qed.

Lemma run_validators_total st o :
  wf_output st o = true -> exists r, run_validators env st o = Some r.
Proof.
  rewrite wf_output_spec. intros (Hd & Hr & Hdc & _).
  destruct (derefs_total _ _ Hd) as [ds Hds].
  destruct (derefs_total _ _ Hr) as [rs Hrs].
  destruct (derefs_total _ _ Hdc) as [dcs Hdcs].
  unfold run_validators. rewrite Hrs. simpl.
  destruct (ValidateRefs env rs); [eauto|].
  rewrite Hds. simpl. destruct (ValidateDefs env ds); [eauto|].
  rewrite Hdcs. simpl. eauto.
Qed.

Lemma sort_slice_total {A} (less : A -> A -> bool) (h : gmap N A) ps :
  Forall (fun p => is_Some (h !! p)) ps ->
  exists ps', sort_slice env less h ps = Some ps'.
Proof.
  intros Hall. unfold sort_slice.
  destruct (length ps <? 2)%nat; [eauto|].
  destruct (deref_pairs_total _ _ Hall) as [pvs ->]. simpl. eauto.
Qed.

Lemma sortedOutput_total st o :
  wf_output st o = true -> exists o', sortedOutput env st o = Some o'.
Proof.
  rewrite wf_output_spec. intros (Hd & Hr & Hdc & Ha). unfold sortedOutput.
  destruct (sort_slice_total (defs_less env) _ _ Hd) as [ds ->]; simpl.
  destruct (sort_slice_total (refs_less env) _ _ Hr) as [rs ->]; simpl.
  destruct (sort_slice_total (docs_less env) _ _ Hdc) as [dcs ->]; simpl.
  destruct (sort_slice_total (anns_less env) _ _ Ha) as [ans ->]; simpl.
  eauto.
Qed.

Lemma NormalizeData_after st o st2 :
  rewrite_and_convert env ot ut dir fs st o = Some st2 ->
  wf_output st2 o = true ->
  (exists r, run_validators env st2 o = Some r) /\
  (forall e, run_validators env st2 o = Some (Some e) ->
     NormalizeData env ot ut dir fs st o = Err e st2 o) /\
  (run_validators env st2 o = Some None ->
     exists o', sortedOutput env st2 o = Some o' /\
                NormalizeData env ot ut dir fs st o = Ok st2 o').
Proof.
  intros Hrc Hwf. split; [by apply run_validators_total|].
  unfold NormalizeData. rewrite Hrc. split.
  - intros e ->. reflexivity.
  - intros ->. destruct (sortedOutput_total st2 o Hwf) as [o' Ho'].
    rewrite Ho'. eauto.
Qed.

Lemma NormalizeData_store st o st' :
  outcome_store (NormalizeData env ot ut dir fs st o) = Some st' ->
  rewrite_and_convert env ot ut dir fs st o = Some st'.
Proof.
  unfold NormalizeData.
  destruct (rewrite_and_convert env ot ut dir fs st o) as [st2|]; [|discriminate].
  destruct (run_validators env st2 o) as [[e|]|]; [by intros [= <-]| |discriminate].
  destruct (sortedOutput env st2 o); [by intros [= <-] | discriminate].
Qed.

Lemma NormalizeData_Err st o e st' o' :
  NormalizeData env ot ut dir fs st o = Err e st' o' ->
  rewrite_and_convert env ot ut dir fs st o = Some st' /\ o' = o /\
  run_validators env st' o = Some (Some e).
Proof.
  unfold NormalizeData.
  destruct (rewrite_and_convert env ot ut dir fs st o) as [st2|]; [|discriminate].
  destruct (run_validators env st2 o) as [[e2|]|] eqn:Hv; [|destruct (sortedOutput env st2 o)|]; try discriminate.
  intros [= <- <- <-]. done.
Qed.

Lemma NormalizeData_Ok st o st' o' :
  NormalizeData env ot ut dir fs st o = Ok st' o' ->
  rewrite_and_convert env ot ut dir fs st o = Some st' /\
  run_validators env st' o = Some None /\ sortedOutput env st' o = Some o'.
Proof.
  unfold NormalizeData.
  destruct (rewrite_and_convert env ot ut dir fs st o) as [st2|]; [|discriminate].
  destruct (run_validators env st2 o) as [[e2|]|] eqn:Hv; try discriminate.
  destruct (sortedOutput env st2 o) eqn:Hs; [|discriminate].
  intros [= <- <-]. done.
Qed.
End Pipeline.

Lemma prefix_spec (s1 s2 : string) :
  String.prefix s1 s2 = true <-> exists rest, s2 = (s1 ++ rest)%string.
Proof.
  revert s2. induction s1 as [|a s1 IH]; intros s2.
  - destruct s2; simpl; split; eauto.
  - destruct s2 as [|b s2]; simpl.
    + split; [discriminate|]. intros [rest Hr]. discriminate.
    + destruct (Ascii.ascii_dec a b) as [<-|Hne].
      * rewrite IH. split; intros [rest Hr]; exists rest.
        -- by rewrite Hr.
        -- by injection Hr.
      * split; [discriminate|]. intros [rest Hr]. injection Hr as Hba _.
        congruence.
Qed.

Lemma rewrite_ref_pos {error} (env : Collaborators error) (r : Ref.t) :
  pfile (rewrite_ref env r) = pfile r /\
  pstart (rewrite_ref env r) = pstart r /\ pend (rewrite_ref env r) = pend r.
Proof.
  unfold rewrite_ref. destruct (String.eqb (Ref.DefRepo r) ""); by destruct r.
Qed.

(* ------------------------------------------------------------------ *)
(** ** What happens to each record *)

(** A record whose file is missing: the file name is empty, or the joined
    path is not a regular file. *)
Definition missing_file (join : string -> string -> string) (fs : FileSystem)
  (dir filename : string) : Prop :=
  filename = ""%string \/ forall c, fs !! join dir filename <> Some (FRegular c).

(** Every zero offset of a record of [h] is still zero in [h']. *)
Definition zero_kept `{Positioned A} (h h' : gmap N A) : Prop :=
  forall p a, h !! p = Some a ->
    (pstart a = 0 -> exists a', h' !! p = Some a' /\ pstart a' = 0) /\
    (pend a = 0 -> exists a', h' !! p = Some a' /\ pend a' = 0).

(** Every record of [h] with a missing file has the same offsets in [h']. *)
Definition missing_kept `{Positioned A} (join : string -> string -> string)
  (fs : FileSystem) (dir : string) (h h' : gmap N A) : Prop :=
  forall p a, h !! p = Some a -> missing_file join fs dir (pfile a) ->
    exists a', h' !! p = Some a' /\ pstart a' = pstart a /\ pend a' = pend a.

(** Every record of [h] listed in [ps], once updated by [g] (the [DefRepo]
    rewrite for references, nothing for the others), is in [h'] in the state
    a failed conversion leaves it in: unchanged when its file cannot be read
    or the start offset's lookup fails, start converted and end kept when
    only the end offset's lookup fails. *)
Definition failed_kept `{Positioned A} (join : string -> string -> string)
  (fs : FileSystem) (dir : string) (g : A -> A) (ps : list N)
  (h h' : gmap N A) : Prop :=
  forall p a, p ∈ ps -> h !! p = Some a ->
    let b := g a in
    (resolve join fs dir (pfile b) = None -> h' !! p = Some b) /\
    forall data, resolve join fs dir (pfile b) = Some data ->
      let tbl := byte_offsets_for_content data in
      (conv_field tbl (pstart b) = None -> h' !! p = Some b) /\
      (forall s', conv_field tbl (pstart b) = Some s' ->
         conv_field tbl (pend b) = None -> h' !! p = Some (set_pos b s' (pend b))).

Lemma fix_pure_zero `{PositionedLaws A} join fs dir (a : A) :
  (pstart a = 0 -> pstart (fix_pure join fs dir a) = 0) /\
  (pend a = 0 -> pend (fix_pure join fs dir a) = 0).
Proof.
  unfold fix_pure. destruct (resolve join fs dir (pfile a)) as [data|]; [|done].
  rewrite fix_offsets_two. unfold conv_field.
  split; intros Hz; rewrite Hz; simpl; repeat case_match; simplify_eq;
    rewrite ?pstart_set_pos, ?pend_set_pos; try done; lia.
Qed.

Lemma fix_pure_missing `{Positioned A} join fs dir (a : A) :
  missing_file join fs dir (pfile a) -> fix_pure join fs dir a = a.
Proof.
  intros Hm. unfold fix_pure, resolve.
  destruct Hm as [->|Hm]; [reflexivity|].
  destruct (String.eqb (pfile a) ""); [reflexivity|].
  destruct (fs !! join dir (pfile a)) as [[c|]|] eqn:E; try reflexivity.
  exfalso. by apply (Hm c).
Qed.

Lemma fix_missing `{Positioned A} join fs dir files (a : A) :
  missing_file join fs dir (pfile a) -> fix_ join fs dir files a = (files, a).
Proof.
  intros Hm. unfold fix_.
  destruct Hm as [->|Hm]; [reflexivity|].
  destruct (String.eqb (pfile a) ""); [reflexivity|].
  destruct (fs !! join dir (pfile a)) as [[c|]|] eqn:E; try reflexivity.
  exfalso. by apply (Hm c).
Qed.

Lemma zero_kept_refl `{Positioned A} (h : gmap N A) : zero_kept h h.
Proof. intros p a Ha. split; intros; eauto. Qed.

Lemma zero_kept_trans `{Positioned A} (h1 h2 h3 : gmap N A) :
  zero_kept h1 h2 -> zero_kept h2 h3 -> zero_kept h1 h3.
Proof.
  intros H12 H23 p a Ha. split; intros Hz.
  - destruct (proj1 (H12 p a Ha) Hz) as (a2 & Ha2 & Hz2).
    exact (proj1 (H23 p a2 Ha2) Hz2).
  - destruct (proj2 (H12 p a Ha) Hz) as (a2 & Ha2 & Hz2).
    exact (proj2 (H23 p a2 Ha2) Hz2).
Qed.

Lemma zero_kept_upd `{Positioned A} (f : A -> A) (h h' : gmap N A) ps :
  (forall a, pstart a = 0 -> pstart (f a) = 0) ->
  (forall a, pend a = 0 -> pend (f a) = 0) ->
  upd_all f h ps = Some h' -> zero_kept h h'.
Proof.
  intros Hs He Hu p a Ha. split; intros Hz.
  - exact (upd_all_preserve f (fun b => pstart b = 0) h ps h' Hs Hu p a Ha Hz).
  - exact (upd_all_preserve f (fun b => pend b = 0) h ps h' He Hu p a Ha Hz).
Qed.

Lemma missing_kept_upd `{Positioned A} join fs dir (f : A -> A) (h h' : gmap N A) ps :
  (forall a, pfile (f a) = pfile a /\
     (missing_file join fs dir (pfile a) -> pstart (f a) = pstart a /\ pend (f a) = pend a)) ->
  upd_all f h ps = Some h' -> missing_kept join fs dir h h'.
Proof.
  intros Hf Hu p a Ha Hm.
  assert (Hinv : forall b, pfile b = pfile a /\ pstart b = pstart a /\ pend b = pend a ->
            pfile (f b) = pfile a /\ pstart (f b) = pstart a /\ pend (f b) = pend a).
  { intros b (Hfb & Hsb & Heb). destruct (Hf b) as [Hfile Hpos].
    rewrite <- Hfb in Hm. destruct (Hpos Hm) as [-> ->]. by rewrite Hfile. }
  destruct (upd_all_preserve f
              (fun b => pfile b = pfile a /\ pstart b = pstart a /\ pend b = pend a)
              h ps h' Hinv Hu p a Ha (conj eq_refl (conj eq_refl eq_refl)))
    as (a' & Ha' & _ & Hs & He).
  eauto.
Qed.

Lemma missing_kept_trans `{Positioned A} join fs dir (h1 h2 h3 : gmap N A) :
  (forall p a, h1 !! p = Some a -> exists a', h2 !! p = Some a' /\ pfile a' = pfile a) ->
  missing_kept join fs dir h1 h2 -> missing_kept join fs dir h2 h3 ->
  missing_kept join fs dir h1 h3.
Proof.
  intros Hfile H12 H23 p a Ha Hm.
  destruct (H12 p a Ha Hm) as (a2 & Ha2 & Hs2 & He2).
  destruct (Hfile p a Ha) as (a2' & Ha2' & Hf2). rewrite Ha2 in Ha2'.
  injection Ha2' as <-. rewrite <- Hf2 in Hm.
  destruct (H23 p a2 Ha2 Hm) as (a3 & Ha3 & Hs3 & He3).
  exists a3. split; [done|]. split; congruence.
Qed.

Lemma fix_pure_file `{PositionedLaws A} join fs dir (a : A) :
  pfile (fix_pure join fs dir a) = pfile a.
Proof.
  unfold fix_pure. destruct (resolve join fs dir (pfile a)); [|done].
  destruct (fix_offsets _ _) as [|? [|? []]]; try done. apply pfile_set_pos.
Qed.

Lemma upd_all_file `{Positioned A} (f : A -> A) (h h' : gmap N A) ps :
  (forall a, pfile (f a) = pfile a) ->
  upd_all f h ps = Some h' ->
  forall p a, h !! p = Some a -> exists a', h' !! p = Some a' /\ pfile a' = pfile a.
Proof.
  intros Hf Hu p a Ha.
  assert (Hinv : forall b, pfile b = pfile a -> pfile (f b) = pfile a).
  { intros b <-. apply Hf. }
  exact (upd_all_preserve f (fun b => pfile b = pfile a) h ps h' Hinv Hu p a Ha eq_refl).
Qed.

Lemma missing_kept_refl `{Positioned A} join fs dir (h : gmap N A) :
  missing_kept join fs dir h h.
Proof. intros p a Ha _. eauto. Qed.

Lemma failed_kept_of `{PositionedLaws A} join fs dir (g : A -> A) ps
  (h h' : gmap N A) :
  (forall p a, p ∈ ps -> h !! p = Some a ->
     h' !! p = Some (fix_pure join fs dir (g a))) ->
  failed_kept join fs dir g ps h h'.
Proof.
  intros Hh p a Hp Ha. cbv zeta. rewrite (Hh p a Hp Ha).
  pose proof (fix_pure_converted join fs dir (g a)) as Hc.
  unfold converted_record in Hc.
  split.
  - intros Hn. rewrite Hn in Hc. by rewrite Hc.
  - intros data Hd. rewrite Hd in Hc. split.
    + intros Hs. rewrite Hs in Hc. by rewrite Hc.
    + intros s' Hs He. rewrite Hs, He in Hc. by rewrite Hc.
Qed.

(** Under the conditions of a conversion, each record of the [Output] ends
    up as [fix_pure] makes it (after the rewrite, for references). *)
Lemma NormalizeData_records {error} (env : Collaborators error) ot ut dir fs st o :
  convert_offsets ot ut = true -> wf_output st o = true -> nodup_output o ->
  exists st2,
    rewrite_and_convert env ot ut dir fs st o = Some st2 /\
    wf_output st2 o = true /\
    (forall p d, p ∈ Defs o -> defs_h st !! p = Some d ->
       defs_h st2 !! p = Some (fix_pure (join env) fs dir d)) /\
    (forall p r, p ∈ Refs o -> refs_h st !! p = Some r ->
       refs_h st2 !! p = Some (fix_pure (join env) fs dir (rewrite_ref env r))) /\
    (forall p d, p ∈ Docs o -> docs_h st !! p = Some d ->
       docs_h st2 !! p = Some (fix_pure (join env) fs dir d)) /\
    (forall p a, p ∈ Anns o -> anns_h st !! p = Some a ->
       anns_h st2 !! p = Some (fix_pure (join env) fs dir a)).
Proof.
  intros Hc Hwf (Hnd & Hnr & Hndc & Hna).
  destruct (rewrite_and_convert_wf env ot ut dir fs st o Hwf) as (st2 & Hrc & Hwf2).
  exists st2. split; [done|split; [done|]].
  destruct (rewrite_and_convert_inv env ot ut dir fs st o st2 Hrc) as (rh & Hrh & Hcp).
  rewrite Hc in Hcp. apply convert_pure_inv in Hcp as (Hd & Hr & Hdc & Ha).
  simpl in *.
  split; [|split; [|split]].
  - intros p d Hp Hpd. by apply (upd_all_nodup _ _ _ _ Hnd Hd).
  - intros p r Hp Hpr. apply (upd_all_nodup _ _ _ _ Hnr Hr); [done|].
    by apply (upd_all_nodup _ _ _ _ Hnr Hrh).
  - intros p d Hp Hpd. by apply (upd_all_nodup _ _ _ _ Hndc Hdc).
  - intros p a Hp Hpa. by apply (upd_all_nodup _ _ _ _ Hna Ha).
Qed.

Lemma NormalizeData_outcome {error} (env : Collaborators error) ot ut dir fs st o st2 :
  rewrite_and_convert env ot ut dir fs st o = Some st2 ->
  wf_output st2 o = true ->
  outcome_store (NormalizeData env ot ut dir fs st o) = Some st2 /\
  (forall e st' o', NormalizeData env ot ut dir fs st o = Err e st' o' ->
     run_validators env st2 o = Some (Some e)) /\
  (run_validators env st2 o = Some None ->
     exists o', NormalizeData env ot ut dir fs st o = Ok st2 o').
Proof.
  intros Hrc Hwf.
  destruct (NormalizeData_after env ot ut dir fs st o st2 Hrc Hwf)
    as ([r Hr] & Herr & Hok).
  split; [|split].
  - destruct r as [e|].
    + by rewrite (Herr e Hr).
    + destruct (Hok Hr) as (o' & _ & ->). done.
  - intros e st' o' HE.
    destruct (NormalizeData_Err env ot ut dir fs st o e st' o' HE) as (Hrc' & _ & Hv).
    rewrite Hrc in Hrc'. by injection Hrc' as <-.
  - intros Hv. destruct (Hok Hv) as (o' & _ & ->). eauto.
Qed.

(** [NormalizeData] fails exactly when a validator reports an error. *)
Lemma is_err_NormalizeData {error} (env : Collaborators error) ot ut dir fs st o st2 :
  rewrite_and_convert env ot ut dir fs st o = Some st2 ->
  wf_output st2 o = true ->
  is_err (NormalizeData env ot ut dir fs st o) = true <->
  exists e, run_validators env st2 o = Some (Some e).
Proof.
  intros Hrc Hwf.
  destruct (NormalizeData_after env ot ut dir fs st o st2 Hrc Hwf)
    as ([r Hr] & Herr & Hok).
  destruct r as [e|].
  - rewrite (Herr e Hr). split; eauto.
  - destruct (Hok Hr) as (o' & _ & ->). rewrite Hr.
    split; [discriminate|]. intros [e [=]].
Qed.

(** The definitions, references and docs after the conversion phase depend
    only on the definitions, references and docs before it. *)
Lemma rewrite_and_convert_frame {error} (env : Collaborators error) ot ut dir fs
  st st' o o' st2 st2' :
  Defs o' = Defs o -> Refs o' = Refs o -> Docs o' = Docs o ->
  defs_h st' = defs_h st -> refs_h st' = refs_h st -> docs_h st' = docs_h st ->
  rewrite_and_convert env ot ut dir fs st o = Some st2 ->
  rewrite_and_convert env ot ut dir fs st' o' = Some st2' ->
  defs_h st2' = defs_h st2 /\ refs_h st2' = refs_h st2 /\ docs_h st2' = docs_h st2.
Proof.
  intros HD HR HDc Hd Hr Hdc Hrc Hrc'.
  destruct (rewrite_and_convert_inv env ot ut dir fs st o st2 Hrc) as (rh & Hrh & Hcv).
  destruct (rewrite_and_convert_inv env ot ut dir fs st' o' st2' Hrc') as (rh' & Hrh' & Hcv').
  rewrite HR, Hr, Hrh in Hrh'. injection Hrh' as <-.
  destruct (convert_offsets ot ut).
  - apply convert_pure_inv in Hcv as (Hd1 & Hr1 & Hdc1 & _).
    apply convert_pure_inv in Hcv' as (Hd2 & Hr2 & Hdc2 & _).
    simpl in *. rewrite HD, Hd, Hd1 in Hd2. rewrite HR, Hr1 in Hr2.
    rewrite HDc, Hdc, Hdc1 in Hdc2. split; [|split]; congruence.
  - subst st2 st2'. simpl. auto.
Qed.

Lemma run_validators_frame {error} (env : Collaborators error) st st' o o' :
  Defs o' = Defs o -> Refs o' = Refs o -> Docs o' = Docs o ->
  defs_h st' = defs_h st -> refs_h st' = refs_h st -> docs_h st' = docs_h st ->
  run_validators env st' o' = run_validators env st o.
Proof.
  intros HD HR HDc Hd Hr Hdc. unfold run_validators.
  by rewrite HD, HR, HDc, Hd, Hr, Hdc.
Qed.

(** Sorting is the same on two permutations of the slices. *)
Lemma rewrite_and_convert_perm {error} (env : Collaborators error) ot ut dir fs
  st o1 o2 :
  Defs o1 ≡ₚ Defs o2 -> Refs o1 ≡ₚ Refs o2 -> Docs o1 ≡ₚ Docs o2 ->
  Anns o1 ≡ₚ Anns o2 ->
  rewrite_and_convert env ot ut dir fs st o1 =
  rewrite_and_convert env ot ut dir fs st o2.
Proof.
  intros HD HR HDc HA. unfold rewrite_and_convert.
  rewrite (upd_all_perm _ _ _ _ HR).
  destruct (upd_all (rewrite_ref env) (refs_h st) (Refs o2)) as [rh|]; [|done].
  simpl. destruct (convert_offsets ot ut); [|done].
  rewrite !ensure_pure. unfold convert_pure; simpl.
  by rewrite (upd_all_perm _ _ _ _ HD), (upd_all_perm _ _ _ _ HR),
    (upd_all_perm _ _ _ _ HDc), (upd_all_perm _ _ _ _ HA).
Qed.

Lemma ins_perm {A} (lt : A -> A -> bool) x l : ins lt x l ≡ₚ x :: l.
Proof.
  induction l as [|y l IH]; simpl; [done|].
  destruct (lt x y); [done|].
  rewrite IH. by constructor.
Qed.

Lemma ins_sorted {A} (lt : A -> A -> bool) x l :
  strict_weak lt ->
  Sorted (fun a b => lt b a = false) l ->
  Sorted (fun a b => lt b a = false) (ins lt x l).
Proof.
  intros (Hirr & Htr & _). induction l as [|y l IH]; intros Hs; simpl.
  - repeat constructor.
  - apply Sorted_inv in Hs as [Hs Hhd].
    destruct (lt x y) eqn:Exy.
    + constructor; [by constructor|]. constructor.
      destruct (lt y x) eqn:Eyx; [|done].
      pose proof (Htr x y x Exy Eyx) as Hxx. by rewrite Hirr in Hxx.
    + constructor; [by apply IH|].
      destruct l as [|z l]; simpl; [by constructor|].
      apply HdRel_inv in Hhd.
      destruct (lt x z); by constructor.
Qed.

Lemma isort_contract : sort_contract (@isort).
Proof.
  split.
  - intros A lt l. induction l as [|x l IH]; simpl; [done|].
    rewrite ins_perm. by constructor.
  - intros A lt l Hw. induction l as [|x l IH]; simpl; [constructor|].
    by apply ins_sorted.
Qed.

Lemma enc_less_total `{Countable A} : strict_total (@enc_less A _ _).
Proof.
  unfold enc_less. split; [|split].
  - intros x. apply Pos.ltb_irrefl.
  - intros x y z. rewrite !Pos.ltb_lt. apply Pos.lt_trans.
  - intros x y Hne. rewrite !Pos.ltb_lt.
    assert (encode x <> encode y) as Henc by (intros E; by apply Hne, (inj encode)).
    destruct (Pos.lt_total (encode x) (encode y)) as [|[|]]; auto; done.
Qed.

Lemma rewrite_ref_idem {error} (env : Collaborators error) (r : Ref.t) :
  (forall s, MakeURI env (MakeURI env s) = MakeURI env s) ->
  rewrite_ref env (rewrite_ref env r) = rewrite_ref env r.
Proof.
  intros Hm. unfold rewrite_ref.
  destruct (String.eqb (Ref.DefRepo r) "") eqn:E; [by rewrite E|].
  destruct r; simpl in *.
  destruct (String.eqb (MakeURI env DefRepo) "") eqn:E2; [done|].
  unfold Ref.set_DefRepo; simpl. by rewrite Hm.
Qed.

(** Sorting a sorted slice again gives the same records in the same
    order. *)
Lemma sort_slice_twice {error} (env : Collaborators error) `{EqDecision A}
  (less : A -> A -> bool) (h : gmap N A) ps q1 q2 :
  sort_contract (@sort_by _ env) -> strict_total less ->
  sort_slice env less h ps = Some q1 -> sort_slice env less h q1 = Some q2 ->
  derefs h q2 = derefs h q1.
Proof.
  intros Hsort Hless H1 H2.
  destruct (sort_slice_spec env less Hsort Hless h ps q1 H1) as [Hp _].
  symmetry. apply (sort_slice_det env less Hsort Hless h ps q1 q1 q2); [|done|done].
  by symmetry.
Qed.

(* ------------------------------------------------------------------ *)
(** ** More about the loops *)

Lemma upd_all_count {A} (f : A -> A) (h h' : gmap N A) ps p a :
  upd_all f h ps = Some h' -> h !! p = Some a ->
  h' !! p = Some (Nat.iter (count_occ N.eq_dec ps p) f a).
Proof.
  revert h a. induction ps as [|q ps IH]; intros h a Hu Ha; simpl in Hu.
  - injection Hu as <-. done.
  - destruct (h !! q) as [b|] eqn:Hq; [|discriminate].
    destruct (N.eq_dec q p) as [->|Hne].
    + rewrite count_occ_cons_eq by done. rewrite Ha in Hq. injection Hq as <-.
      rewrite (IH _ (f a) Hu) by (by rewrite lookup_insert_eq).
      by rewrite Nat.iter_succ_r.
    + rewrite count_occ_cons_neq by done.
      apply (IH _ a Hu). by rewrite lookup_insert_ne.
Qed.

Lemma upd_all_forall {A} (f : A -> A) (P : A -> Prop) (h h' : gmap N A) ps :
  (forall p a, h !! p = Some a -> P a) -> (forall a, P a -> P (f a)) ->
  upd_all f h ps = Some h' -> forall p a, h' !! p = Some a -> P a.
Proof.
  intros Hh Hf. revert h Hh. induction ps as [|q ps IH]; intros h Hh Hu; simpl in Hu.
  - injection Hu as <-. done.
  - destruct (h !! q) as [b|] eqn:Hq; [|discriminate].
    refine (IH _ _ Hu). intros p a Hp.
    apply lookup_insert_Some in Hp as [[<- <-]|[_ Hp]]; eauto.
Qed.

Lemma upd_all_ext {A} (f g : A -> A) (P : A -> Prop) (h : gmap N A) ps :
  (forall p a, h !! p = Some a -> P a) ->
  (forall a, P a -> f a = g a /\ P (f a)) ->
  upd_all f h ps = upd_all g h ps.
Proof.
  intros Hh Hfg. revert h Hh. induction ps as [|q ps IH]; intros h Hh; simpl; [done|].
  destruct (h !! q) as [b|] eqn:Hq; [|done].
  destruct (Hfg b (Hh q b Hq)) as [<- Hb].
  apply IH. intros p a Hp.
  apply lookup_insert_Some in Hp as [[_ <-]|[_ Hp]]; eauto.
Qed.

Lemma upd_all_present {A} (f : A -> A) (h h' : gmap N A) ps :
  upd_all f h ps = Some h' -> Forall (fun p => is_Some (h !! p)) ps.
Proof.
  revert h. induction ps as [|q ps IH]; intros h Hu; simpl in Hu; [constructor|].
  destruct (h !! q) as [b|] eqn:Hq; [|discriminate].
  constructor; [by eexists|].
  eapply Forall_impl; [|exact (IH _ Hu)]. intros p Hp; simpl in Hp.
  destruct (decide (p = q)) as [->|Hne]; [by eexists|].
  rewrite lookup_insert_ne in Hp by congruence. done.
Qed.

Lemma fix_pure_shape `{PositionedLaws A} join fs dir (a : A) :
  exists s e, fix_pure join fs dir a = set_pos a s e.
Proof.
  unfold fix_pure. destruct (resolve join fs dir (pfile a)).
  - destruct (fix_offsets _ _) as [|s [|e []]]; eauto;
      exists (pstart a), (pend a); by rewrite set_pos_id.
  - exists (pstart a), (pend a). by rewrite set_pos_id.
Qed.

Lemma fix_pure_fs_ext `{Positioned A} join fs fs' dir (a : A) :
  fs !! join dir (pfile a) = fs' !! join dir (pfile a) ->
  fix_pure join fs dir a = fix_pure join fs' dir a.
Proof. intros E. unfold fix_pure, resolve. by rewrite E. Qed.

Lemma upd_all_fix_fs_ext `{PositionedLaws A} join fs fs' dir (h : gmap N A) ps :
  (forall p a, h !! p = Some a ->
     fs !! join dir (pfile a) = fs' !! join dir (pfile a)) ->
  upd_all (fix_pure join fs dir) h ps = upd_all (fix_pure join fs' dir) h ps.
Proof.
  intros Hh.
  apply (upd_all_ext _ _ (fun a => fs !! join dir (pfile a) = fs' !! join dir (pfile a))
           h ps Hh).
  intros a Ha. split; [by apply fix_pure_fs_ext|]. by rewrite fix_pure_file.
Qed.

Lemma Def_set_pos_twice a s e s' e' :
  Def.set_pos (Def.set_pos a s e) s' e' = Def.set_pos a s' e'.
Proof. by destruct a. Qed.
Lemma Doc_set_pos_twice a s e s' e' :
  Doc.set_pos (Doc.set_pos a s e) s' e' = Doc.set_pos a s' e'.
Proof. by destruct a. Qed.
Lemma Ann_set_pos_twice a s e s' e' :
  Ann.set_pos (Ann.set_pos a s e) s' e' = Ann.set_pos a s' e'.
Proof. by destruct a. Qed.

Lemma upd_all_positions `{PositionedLaws A} (f : A -> A) (h h' : gmap N A) ps :
  (forall a s e s' e', set_pos (set_pos a s e) s' e' = set_pos a s' e') ->
  (forall b, exists s e, f b = set_pos b s e) ->
  upd_all f h ps = Some h' ->
  forall p a, h !! p = Some a -> exists s e, h' !! p = Some (set_pos a s e).
Proof.
  intros Hss Hf Hu p a Ha.
  assert (Hinv : forall b, (exists s e, b = set_pos a s e) ->
                           exists s e, f b = set_pos a s e).
  { intros b (s & e & ->). destruct (Hf (set_pos a s e)) as (s' & e' & ->).
    rewrite Hss. eauto. }
  assert (Ha0 : exists s e, a = set_pos a s e).
  { exists (pstart a), (pend a). by rewrite set_pos_id. }
  destruct (upd_all_preserve f (fun b => exists s e, b = set_pos a s e) h ps h'
              Hinv Hu p a Ha Ha0) as (b & Hb & s & e & ->).
  eauto.
Qed.

(** A reference whose [DefRepo] and offsets may have been set. *)
Definition ref_reshaped (r r' : Ref.t) : Prop :=
  exists dr s e, r' = Ref.set_pos (Ref.set_DefRepo r dr) s e.

Lemma upd_all_ref_shape (g : Ref.t -> Ref.t) (h h' : gmap N Ref.t) ps :
  (forall b, ref_reshaped b (g b)) ->
  upd_all g h ps = Some h' ->
  forall p r, h !! p = Some r -> exists r', h' !! p = Some r' /\ ref_reshaped r r'.
Proof.
  intros Hg Hu p r Hr.
  assert (Hinv : forall b, ref_reshaped r b -> ref_reshaped r (g b)).
  { intros b (dr & s & e & ->).
    destruct (Hg (Ref.set_pos (Ref.set_DefRepo r dr) s e)) as (dr' & s' & e' & ->).
    exists dr', s', e'. by destruct r. }
  assert (Hr0 : ref_reshaped r r).
  { exists (Ref.DefRepo r), (Ref.Start r), (Ref.End_ r). by destruct r. }
  exact (upd_all_preserve g (ref_reshaped r) h ps h' Hinv Hu p r Hr Hr0).
Qed.

Lemma sort_slice_perm {error} (env : Collaborators error) {A}
  (less : A -> A -> bool) (h : gmap N A) ps ps' :
  (forall B (lt : B -> B -> bool) l, sort_by env lt l ≡ₚ l) ->
  sort_slice env less h ps = Some ps' -> ps' ≡ₚ ps.
Proof.
  intros Hperm. unfold sort_slice. destruct (length ps <? 2)%nat; [by intros [= <-]|].
  destruct (deref_pairs h ps) as [pvs|] eqn:Hpv; [|discriminate].
  simpl. intros [= <-].
  destruct (deref_pairs_spec h ps pvs Hpv) as (Hfst & _ & _).
  rewrite <- Hfst. apply Permutation_map, Hperm.
Qed.

Lemma sort_slice_sorted {error} (env : Collaborators error) `{EqDecision A}
  (less : A -> A -> bool) (h : gmap N A) ps ps' vs :
  sort_contract (@sort_by _ env) -> strict_total less ->
  sort_slice env less h ps = Some ps' -> derefs h ps' = Some vs ->
  Sorted (fun x y => less y x = false) vs.
Proof.
  intros Hsort Hless Hs Hd.
  destruct (sort_slice_spec env less Hsort Hless h ps ps' Hs) as [Hp Hq].
  destruct (derefs_perm h ps' ps vs Hp Hd) as (vs0 & Hd0 & _).
  destruct (Hq vs0 Hd0) as (vs' & Hd' & _ & Hsorted).
  rewrite Hd in Hd'. by injection Hd' as <-.
Qed.

(* ------------------------------------------------------------------ *)
(** ** More about the position index *)

Lemma rune_width_bounds (l : list Z) :
  l <> [] -> (1 <= rune_width l <= length l)%nat.
Proof.
  destruct l as [|b0 rest]; [done|]. intros _.
  unfold rune_width. simpl.
  repeat (case_match; simpl in *; try lia).
Qed.

Lemma rune_starts_bounds fuel pos l i b :
  rune_starts fuel pos l !! i = Some b ->
  pos + Z.of_nat i <= b < pos + Z.of_nat (length l).
Proof.
  revert pos l i. induction fuel as [|fuel IH]; intros pos l i Hb; simpl in Hb;
    [done|].
  destruct l as [|x l']; [done|].
  pose proof (rune_width_bounds (x :: l') ltac:(discriminate)) as Hw.
  destruct i as [|i]; simpl in Hb.
  - injection Hb as <-. simpl in *. lia.
  - apply IH in Hb. rewrite length_drop in Hb. simpl in *. lia.
Qed.

Lemma rune_starts_incr fuel pos l i j a b :
  (i < j)%nat -> rune_starts fuel pos l !! i = Some a ->
  rune_starts fuel pos l !! j = Some b -> a < b.
Proof.
  revert pos l i j. induction fuel as [|fuel IH]; intros pos l i j Hij Ha Hb;
    cbn [rune_starts] in Ha, Hb; [done|].
  destruct l as [|x l']; [done|].
  pose proof (rune_width_bounds (x :: l') ltac:(discriminate)) as Hw.
  remember (rune_width (x :: l')) as w eqn:Ew.
  destruct j as [|j]; [lia|]. simpl in Hb.
  destruct i as [|i]; simpl in Ha.
  - injection Ha as <-. apply rune_starts_bounds in Hb. lia.
  - exact (IH _ _ i j ltac:(lia) Ha Hb).
Qed.

Lemma rune_starts_length fuel pos l :
  (length (rune_starts fuel pos l) <= length l)%nat.
Proof.
  revert pos l. induction fuel as [|fuel IH]; intros pos l; simpl; [lia|].
  destruct l as [|x l']; simpl; [lia|].
  pose proof (rune_width_bounds (x :: l') ltac:(discriminate)) as Hw.
  specialize (IH (pos + Z.of_nat (rune_width (x :: l'))) (drop (rune_width (x :: l')) (x :: l'))).
  rewrite length_drop in IH. simpl in *. lia.
Qed.

Lemma offsets_table_bounds data n b :
  byte_offsets_for_content data !! n = Some b ->
  Z.of_nat n <= b <= Z.of_nat (length data).
Proof.
  unfold byte_offsets_for_content. intros Hb.
  apply lookup_app_Some in Hb as [Hb|[Hge Hb]].
  - apply rune_starts_bounds in Hb. lia.
  - pose proof (rune_starts_length (length data) 0 data).
    destruct (n - length (rune_starts (length data) 0 data))%nat as [|k] eqn:E;
      [|by destruct k].
    simpl in Hb. injection Hb as <-. lia.
Qed.

Lemma offsets_table_incr data n m b c :
  (n < m)%nat ->
  byte_offsets_for_content data !! n = Some b ->
  byte_offsets_for_content data !! m = Some c -> b < c.
Proof.
  unfold byte_offsets_for_content. intros Hnm Hb Hc.
  set (rs := rune_starts (length data) 0 data) in *.
  apply lookup_app_Some in Hb as [Hb|[Hge Hb]];
    apply lookup_app_Some in Hc as [Hc|[Hge' Hc]].
  - exact (rune_starts_incr _ _ _ _ _ _ _ Hnm Hb Hc).
  - destruct (m - length rs)%nat as [|k]; [|by destruct k].
    simpl in Hc. injection Hc as <-. apply rune_starts_bounds in Hb. lia.
  - apply lookup_lt_Some in Hc. lia.
  - destruct (n - length rs)%nat as [|k] eqn:E1; [|by destruct k].
    destruct (m - length rs)%nat as [|k'] eqn:E2; [lia|by destruct k'].
Qed.

(** A nonzero offset at most an offset whose lookup succeeds is looked up
    successfully too, to a byte offset at most the other's. *)
Lemma conv_field_mono data s e e' :
  0 <= s <= e ->
  conv_field (byte_offsets_for_content data) e = Some e' ->
  exists s', conv_field (byte_offsets_for_content data) s = Some s' /\ s' <= e'.
Proof.
  intros Hse He. unfold conv_field in *.
  destruct (s =? 0) eqn:Hs0.
  - apply Z.eqb_eq in Hs0. subst s. exists 0. split; [done|].
    destruct (e =? 0) eqn:He0; [injection He as <-; lia|].
    unfold byte_offset_of_rune in He.
    destruct (e <? 0); [discriminate|].
    apply offsets_table_bounds in He. lia.
  - apply Z.eqb_neq in Hs0.
    destruct (e =? 0) eqn:He0; [apply Z.eqb_eq in He0; lia|].
    unfold byte_offset_of_rune in *.
    destruct (e <? 0) eqn:Hel; [discriminate|].
    destruct (s <? 0) eqn:Hsl; [apply Z.ltb_lt in Hsl; lia|].
    assert (is_Some (byte_offsets_for_content data !! Z.to_nat s)) as [s' Hs'].
    { apply lookup_lt_is_Some. apply lookup_lt_Some in He. lia. }
    exists s'. split; [done|].
    destruct (decide (s = e)) as [->|Hne].
    + rewrite He in Hs'. injection Hs' as ->. lia.
    + assert (s' < e'); [|lia].
      apply (offsets_table_incr data (Z.to_nat s) (Z.to_nat e)); [lia|done|done].
Qed.

(** The records of [h] listed in [ps] whose offsets satisfy
    [0 <= start <= end], and whose end offset is found in their file (after
    [g]), still satisfy [start <= end] in [h']. *)
Definition range_kept `{Positioned A} (join : string -> string -> string)
  (fs : FileSystem) (dir : string) (g : A -> A) (ps : list N)
  (h h' : gmap N A) : Prop :=
  forall p a data, p ∈ ps -> h !! p = Some a ->
    let b := g a in
    resolve join fs dir (pfile b) = Some data ->
    0 <= pstart b <= pend b ->
    conv_field (byte_offsets_for_content data) (pend b) <> None ->
    exists b', h' !! p = Some b' /\ pstart b' <= pend b'.

Lemma fix_pure_range `{PositionedLaws A} join fs dir (a : A) data :
  resolve join fs dir (pfile a) = Some data ->
  0 <= pstart a <= pend a ->
  conv_field (byte_offsets_for_content data) (pend a) <> None ->
  pstart (fix_pure join fs dir a) <= pend (fix_pure join fs dir a).
Proof.
  intros Hres Hse Hend.
  destruct (conv_field (byte_offsets_for_content data) (pend a)) as [e'|] eqn:He;
    [|done].
  destruct (conv_field_mono data (pstart a) (pend a) e' Hse He) as (s' & Hs & Hle).
  pose proof (fix_pure_converted join fs dir a) as Hc.
  unfold converted_record in Hc. rewrite Hres in Hc. simpl in Hc.
  rewrite Hs, He in Hc. rewrite Hc, pstart_set_pos, pend_set_pos. done.
Qed.

Lemma range_kept_of `{PositionedLaws A} join fs dir (g : A -> A) ps
  (h h' : gmap N A) :
  (forall p a, p ∈ ps -> h !! p = Some a ->
     h' !! p = Some (fix_pure join fs dir (g a))) ->
  range_kept join fs dir g ps h h'.
Proof.
  intros Hh p a data Hp Ha. cbv zeta. intros Hres Hse Hend.
  eexists. split; [exact (Hh p a Hp Ha)|].
  by apply (fix_pure_range join fs dir (g a) data).
Qed.

(* ------------------------------------------------------------------ *)
(** ** Claims *)

(** C2: offset conversion is decided by the offset type and, when it is
    unspecified, by the unit type: conversion happens exactly for [Char],
    and for [Unspecified] with a unit type other than "GoPackage",
    "Dockerfile" and those starting with "Java"; never for [Byte]. When it
    does not happen, [NormalizeData] leaves every offset of every record as
    it was. *)
Theorem convert_offsets_decision (ot : OffsetType) (ut : string) :
  (convert_offsets ot ut = true <->
     ot = OffsetChar \/
     (ot = OffsetUnspecified /\ ut <> "GoPackage"%string /\
      ut <> "Dockerfile"%string /\
      ~ (exists rest, ut = ("Java" ++ rest)%string))) /\
  (ot = OffsetByte -> convert_offsets ot ut = false) /\
  (convert_offsets ot ut = false ->
   forall {error} (env : Collaborators error) dir fs st o st',
     outcome_store (NormalizeData env ot ut dir fs st o) = Some st' ->
     defs_h st' = defs_h st /\ docs_h st' = docs_h st /\
     anns_h st' = anns_h st /\
     forall p r, refs_h st !! p = Some r ->
       exists r', refs_h st' !! p = Some r' /\
                  pstart r' = pstart r /\ pend r' = pend r).
Proof.
  split; [|split].
  - destruct ot; simpl.
    + rewrite !andb_true_iff, !negb_true_iff, !String.eqb_neq.
      rewrite <- prefix_spec.
      split.
      * intros [[H1 H2] H3]. right. repeat split; try done. congruence.
      * intros [|(_ & H1 & H2 & H3)]; [discriminate|].
        repeat split; try done. by apply not_true_is_false.
    + split; auto.
    + split; [discriminate|]. intros [|[]]; discriminate.
  - by intros ->.
  - intros Hc error env dir fs st o st' Hst.
    apply NormalizeData_store in Hst.
    destruct (rewrite_and_convert_inv env ot ut dir fs st o st' Hst)
      as (rh & Hrh & Hst'). rewrite Hc in Hst'. subst st'; simpl.
    split; [done|split; [done|split; [done|]]].
    intros p r Hr.
    assert (forall a, pstart a = pstart r /\ pend a = pend r ->
              pstart (rewrite_ref env a) = pstart r /\
              pend (rewrite_ref env a) = pend r) as Hpres.
    { intros a. by destruct (rewrite_ref_pos env a) as (_ & -> & ->). }
    destruct (upd_all_preserve (rewrite_ref env)
                (fun r' => pstart r' = pstart r /\ pend r' = pend r)
                _ _ _ Hpres Hrh p r Hr (conj eq_refl eq_refl))
      as (r' & Hr' & Hpos). eauto.
Qed.

(** C1: failure isolation. When offsets are converted and every pointer of
    the [Output] is non-nil and listed once, [NormalizeData] does not abort:
    it ends with the store [st2] of the conversion phase, its only possible
    error is a validator's, and each record of the four collections is
    [converted_record] from its value before the call (after the [DefRepo]
    rewrite, for references): both offsets converted when both lookups
    succeed, and otherwise left as the failed lookup leaves it, whatever
    happens to the other records. *)
Theorem NormalizeData_isolates_failures {error} (env : Collaborators error)
  ot ut dir fs st o :
  convert_offsets ot ut = true -> wf_output st o = true -> nodup_output o ->
  exists st2,
    outcome_store (NormalizeData env ot ut dir fs st o) = Some st2 /\
    (forall e st' o', NormalizeData env ot ut dir fs st o = Err e st' o' ->
       run_validators env st2 o = Some (Some e)) /\
    (forall p d, p ∈ Defs o -> defs_h st !! p = Some d ->
       exists d', defs_h st2 !! p = Some d' /\
                  converted_record (join env) fs dir d d') /\
    (forall p r, p ∈ Refs o -> refs_h st !! p = Some r ->
       exists r', refs_h st2 !! p = Some r' /\
                  converted_record (join env) fs dir (rewrite_ref env r) r') /\
    (forall p d, p ∈ Docs o -> docs_h st !! p = Some d ->
       exists d', docs_h st2 !! p = Some d' /\
                  converted_record (join env) fs dir d d') /\
    (forall p a, p ∈ Anns o -> anns_h st !! p = Some a ->
       exists a', anns_h st2 !! p = Some a' /\
                  converted_record (join env) fs dir a a').
Proof.
  intros Hc Hwf Hnd.
  destruct (NormalizeData_records env ot ut dir fs st o Hc Hwf Hnd)
    as (st2 & Hrc & Hwf2 & Hd & Hr & Hdc & Ha).
  destruct (NormalizeData_outcome env ot ut dir fs st o st2 Hrc Hwf2)
    as (Hst & Herr & _).
  exists st2. split; [done|split; [done|]].
  split; [|split; [|split]]; intros p a Hp Hpa;
    eexists; (split; [eauto|apply fix_pure_converted]).
Qed.

Lemma NormalizeData_isolates_failures_witness :
  convert_offsets OffsetChar "Python" = true /\
  wf_output mixed_store mixed_output = true /\ nodup_output mixed_output /\
  exists st2,
    outcome_store (NormalizeData env0 OffsetChar "Python" "/r" fs0
                     mixed_store mixed_output) = Some st2.
Proof.
  assert (Hc : convert_offsets OffsetChar "Python" = true) by reflexivity.
  assert (Hwf : wf_output mixed_store mixed_output = true)
    by (vm_compute; reflexivity).
  assert (Hnd : nodup_output mixed_output)
    by (apply (bool_decide_unpack _); vm_compute; reflexivity).
  split; [exact Hc|split; [exact Hwf|split; [exact Hnd|]]].
  destruct (NormalizeData_isolates_failures env0 OffsetChar "Python" "/r" fs0
              mixed_store mixed_output Hc Hwf Hnd) as (st2 & Hst & _).
  exists st2. exact Hst.
Defined.

(** C3: whatever the offset type, unit type and directory, every offset
    field (start or end of a definition, reference, doc or annotation)
    holding 0 still holds 0 in the store [NormalizeData] ends with. *)
Theorem NormalizeData_keeps_zero_offsets {error} (env : Collaborators error)
  ot ut dir fs st o st' :
  outcome_store (NormalizeData env ot ut dir fs st o) = Some st' ->
  zero_kept (defs_h st) (defs_h st') /\ zero_kept (refs_h st) (refs_h st') /\
  zero_kept (docs_h st) (docs_h st') /\ zero_kept (anns_h st) (anns_h st').
Proof.
  intros Hst. apply NormalizeData_store in Hst.
  destruct (rewrite_and_convert_inv env ot ut dir fs st o st' Hst)
    as (rh & Hrh & Hcv).
  assert (Hr0 : zero_kept (refs_h st) rh).
  { apply (zero_kept_upd (rewrite_ref env) _ _ (Refs o)); [| |done];
      intros a; destruct (rewrite_ref_pos env a) as (_ & Hs & He);
      by rewrite ?Hs, ?He. }
  destruct (convert_offsets ot ut).
  - apply convert_pure_inv in Hcv as (Hd & Hr & Hdc & Ha); simpl in *.
    split; [|split; [|split]];
      [| eapply zero_kept_trans; [exact Hr0|] | |];
      (eapply zero_kept_upd; [| |eassumption];
       intros a; [exact (proj1 (fix_pure_zero _ _ _ a))
                 |exact (proj2 (fix_pure_zero _ _ _ a))]).
  - subst st'; simpl.
    split; [apply zero_kept_refl|split; [done|split; apply zero_kept_refl]].
Qed.

Lemma NormalizeData_keeps_zero_offsets_witness :
  exists st',
    outcome_store (NormalizeData env0 OffsetChar "Python" "/r" fs0
                     mixed_store mixed_output) = Some st' /\
    zero_kept (defs_h mixed_store) (defs_h st').
Proof.
  eexists. split; [reflexivity|].
  exact (proj1 (NormalizeData_keeps_zero_offsets env0 OffsetChar "Python" "/r"
                  fs0 mixed_store mixed_output _ eq_refl)).
Defined.

(** C4 (as the code has it): [fix] converts the offsets of a record one
    after the other, and a failed lookup stops it there. So the conversion
    of a record does not fail atomically: when the lookup of its end offset
    fails (a rune offset past the end of the file), its start offset has
    already been converted. Here the definition spans runes 1 to 100 of a
    file of 2 runes; NormalizeData succeeds and the start has moved from 1
    to byte 2 while the end stayed 100. *)
Lemma NormalizeData_partial_conversion :
  conv_field (byte_offsets_for_content e_bang) 100 = None /\
  match NormalizeData env0 OffsetChar "Python" "/r" fs0
          (store_of_defs [(0%N, mk_def "a.txt" 1 100)]) (defs_output [0%N]) with
  | Ok st' _ => defs_h st' !! 0%N = Some (mk_def "a.txt" 2 100)
  | _ => False
  end.
Proof. split; vm_compute; reflexivity. Qed.

(** C4, amended: when offsets are converted and every pointer of the
    [Output] is non-nil and listed once, [NormalizeData] goes on to the end
    (no abort), and every record whose conversion fails is left in the state
    the failure leaves it in: all its offsets as they were when its file
    cannot be read or the lookup of its start offset fails; its start offset
    converted and its end offset as it was when only the lookup of its end
    offset fails. *)
Theorem NormalizeData_failed_records {error} (env : Collaborators error)
  ot ut dir fs st o :
  convert_offsets ot ut = true -> wf_output st o = true -> nodup_output o ->
  exists st2,
    outcome_store (NormalizeData env ot ut dir fs st o) = Some st2 /\
    failed_kept (join env) fs dir (fun d => d) (Defs o) (defs_h st) (defs_h st2) /\
    failed_kept (join env) fs dir (rewrite_ref env) (Refs o) (refs_h st) (refs_h st2) /\
    failed_kept (join env) fs dir (fun d => d) (Docs o) (docs_h st) (docs_h st2) /\
    failed_kept (join env) fs dir (fun a => a) (Anns o) (anns_h st) (anns_h st2).
Proof.
  intros Hc Hwf Hnd.
  destruct (NormalizeData_records env ot ut dir fs st o Hc Hwf Hnd)
    as (st2 & Hrc & Hwf2 & Hd & Hr & Hdc & Ha).
  destruct (NormalizeData_outcome env ot ut dir fs st o st2 Hrc Hwf2)
    as (Hst & _ & _).
  exists st2. split; [done|].
  split; [|split; [|split]]; by apply failed_kept_of.
Qed.

Lemma NormalizeData_failed_records_witness :
  convert_offsets OffsetChar "Python" = true /\
  wf_output mixed_store mixed_output = true /\ nodup_output mixed_output /\
  exists st2,
    outcome_store (NormalizeData env0 OffsetChar "Python" "/r" fs0
                     mixed_store mixed_output) = Some st2.
Proof.
  assert (Hc : convert_offsets OffsetChar "Python" = true) by reflexivity.
  assert (Hwf : wf_output mixed_store mixed_output = true)
    by (vm_compute; reflexivity).
  assert (Hnd : nodup_output mixed_output)
    by (apply (bool_decide_unpack _); vm_compute; reflexivity).
  split; [exact Hc|split; [exact Hwf|split; [exact Hnd|]]].
  destruct (NormalizeData_failed_records env0 OffsetChar "Python" "/r" fs0
              mixed_store mixed_output Hc Hwf Hnd) as (st2 & Hst & _).
  exists st2. exact Hst.
Defined.

(** C5: a record whose file name is empty, or whose path joined to the
    directory is not a regular file (absent, or a directory), goes through
    [fix] unchanged, without touching the cache. For every [Output] whose
    pointers are non-nil, [NormalizeData] does not abort, every such record
    keeps its offsets, the call can fail only with a validator's error, and
    it succeeds when the validators accept the converted collections. *)
Theorem NormalizeData_missing_files {error} (env : Collaborators error)
  ot ut dir fs st o :
  wf_output st o = true ->
  (forall A `{Positioned A} (files : Cache) (a : A),
     missing_file (join env) fs dir (pfile a) ->
     fix_ (join env) fs dir files a = (files, a)) /\
  exists st2,
    outcome_store (NormalizeData env ot ut dir fs st o) = Some st2 /\
    (forall e st' o', NormalizeData env ot ut dir fs st o = Err e st' o' ->
       run_validators env st2 o = Some (Some e)) /\
    (run_validators env st2 o = Some None ->
       exists o', NormalizeData env ot ut dir fs st o = Ok st2 o') /\
    missing_kept (join env) fs dir (defs_h st) (defs_h st2) /\
    missing_kept (join env) fs dir (refs_h st) (refs_h st2) /\
    missing_kept (join env) fs dir (docs_h st) (docs_h st2) /\
    missing_kept (join env) fs dir (anns_h st) (anns_h st2).
Proof.
  intros Hwf. split.
  { intros A HA files a Hm. by apply fix_missing. }
  destruct (rewrite_and_convert_wf env ot ut dir fs st o Hwf) as (st2 & Hrc & Hwf2).
  destruct (NormalizeData_outcome env ot ut dir fs st o st2 Hrc Hwf2)
    as (Hst & Herr & Hok).
  exists st2. split; [done|split; [done|split; [done|]]].
  destruct (rewrite_and_convert_inv env ot ut dir fs st o st2 Hrc)
    as (rh & Hrh & Hcv).
  assert (Hrw : forall a : Ref.t, pfile (rewrite_ref env a) = pfile a /\
            (missing_file (join env) fs dir (pfile a) ->
             pstart (rewrite_ref env a) = pstart a /\
             pend (rewrite_ref env a) = pend a)).
  { intros a. destruct (rewrite_ref_pos env a) as (-> & -> & ->). auto. }
  assert (Hr0 : missing_kept (join env) fs dir (refs_h st) rh)
    by exact (missing_kept_upd _ _ _ _ _ _ _ Hrw Hrh).
  assert (Hfx : forall A `{PositionedLaws A} (a : A),
            pfile (fix_pure (join env) fs dir a) = pfile a /\
            (missing_file (join env) fs dir (pfile a) ->
             pstart (fix_pure (join env) fs dir a) = pstart a /\
             pend (fix_pure (join env) fs dir a) = pend a)).
  { intros A HA HL a. split; [apply fix_pure_file|].
    intros Hm. by rewrite fix_pure_missing. }
  destruct (convert_offsets ot ut).
  - apply convert_pure_inv in Hcv as (Hd & Hr & Hdc & Ha); simpl in *.
    split; [|split; [|split]].
    + exact (missing_kept_upd _ _ _ _ _ _ _ (Hfx _ _ _) Hd).
    + apply (missing_kept_trans _ _ _ _ rh); [|done|].
      * apply (upd_all_file (rewrite_ref env) _ _ (Refs o)); [|done].
        intros a. apply Hrw.
      * exact (missing_kept_upd _ _ _ _ _ _ _ (Hfx _ _ _) Hr).
    + exact (missing_kept_upd _ _ _ _ _ _ _ (Hfx _ _ _) Hdc).
    + exact (missing_kept_upd _ _ _ _ _ _ _ (Hfx _ _ _) Ha).
  - subst st2; simpl.
    split; [apply missing_kept_refl|split; [done|split; apply missing_kept_refl]].
Qed.

Lemma NormalizeData_missing_files_witness :
  wf_output mixed_store mixed_output = true /\
  exists st2,
    outcome_store (NormalizeData env0 OffsetChar "Python" "/r" fs0
                     mixed_store mixed_output) = Some st2.
Proof.
  assert (Hwf : wf_output mixed_store mixed_output = true)
    by (vm_compute; reflexivity).
  split; [exact Hwf|].
  destruct (NormalizeData_missing_files env0 OffsetChar "Python" "/r" fs0
              mixed_store mixed_output Hwf) as (_ & st2 & Hst & _).
  exists st2. exact Hst.
Defined.

(** C6: for every [Output] whose pointers are non-nil, the validators run on
    the collections as the conversion phase leaves them, references first,
    then definitions, then docs; the first one to report an error makes
    [NormalizeData] return that error with the [Output] as it was given
    (its slices unsorted); only when all three accept is the [Output]
    sorted. *)
Theorem NormalizeData_validation_order {error} (env : Collaborators error)
  ot ut dir fs st o :
  wf_output st o = true ->
  exists st2 rs ds dcs,
    rewrite_and_convert env ot ut dir fs st o = Some st2 /\
    derefs (refs_h st2) (Refs o) = Some rs /\
    derefs (defs_h st2) (Defs o) = Some ds /\
    derefs (docs_h st2) (Docs o) = Some dcs /\
    (forall e, ValidateRefs env rs = Some e ->
       NormalizeData env ot ut dir fs st o = Err e st2 o) /\
    (forall e, ValidateRefs env rs = None -> ValidateDefs env ds = Some e ->
       NormalizeData env ot ut dir fs st o = Err e st2 o) /\
    (forall e, ValidateRefs env rs = None -> ValidateDefs env ds = None ->
       ValidateDocs env dcs = Some e ->
       NormalizeData env ot ut dir fs st o = Err e st2 o) /\
    (ValidateRefs env rs = None -> ValidateDefs env ds = None ->
       ValidateDocs env dcs = None ->
       exists o', sortedOutput env st2 o = Some o' /\
                  NormalizeData env ot ut dir fs st o = Ok st2 o').
Proof.
  intros Hwf.
  destruct (rewrite_and_convert_wf env ot ut dir fs st o Hwf) as (st2 & Hrc & Hwf2).
  pose proof Hwf2 as Hwf2'.
  apply wf_output_spec in Hwf2' as (Hd & Hr & Hdc & _).
  destruct (derefs_total _ _ Hr) as [rs Hrs].
  destruct (derefs_total _ _ Hd) as [ds Hds].
  destruct (derefs_total _ _ Hdc) as [dcs Hdcs].
  destruct (NormalizeData_after env ot ut dir fs st o st2 Hrc Hwf2)
    as (_ & Herr & Hok).
  exists st2, rs, ds, dcs.
  do 4 (split; [done|]).
  split; [|split; [|split]].
  - intros e He. apply Herr. unfold run_validators. by rewrite Hrs; simpl; rewrite He.
  - intros e H1 H2. apply Herr. unfold run_validators.
    by rewrite Hrs; simpl; rewrite H1, Hds; simpl; rewrite H2.
  - intros e H1 H2 H3. apply Herr. unfold run_validators.
    by rewrite Hrs; simpl; rewrite H1, Hds; simpl; rewrite H2, Hdcs; simpl; rewrite H3.
  - intros H1 H2 H3. apply Hok. unfold run_validators.
    by rewrite Hrs; simpl; rewrite H1, Hds; simpl; rewrite H2, Hdcs; simpl; rewrite H3.
Qed.

Lemma NormalizeData_validation_order_witness :
  wf_output mixed_store mixed_output = true /\
  exists st2,
    rewrite_and_convert env0 OffsetChar "Python" "/r" fs0
      mixed_store mixed_output = Some st2.
Proof.
  assert (Hwf : wf_output mixed_store mixed_output = true)
    by (vm_compute; reflexivity).
  split; [exact Hwf|].
  destruct (NormalizeData_validation_order env0 OffsetChar "Python" "/r" fs0
              mixed_store mixed_output Hwf) as (st2 & _ & _ & _ & Hrc & _).
  exists st2. exact Hrc.
Defined.

(** C10: for every [Output] whose pointers are non-nil, [NormalizeData]
    returns an error exactly when [ValidateRefs], [ValidateDefs] or
    [ValidateDocs] reports one on the converted collections; the
    annotations, converted but never validated, play no part: another call
    on the same definitions, references and docs, whatever its annotations,
    fails exactly when this one does. *)
Theorem NormalizeData_errors_from_validators {error} (env : Collaborators error)
  ot ut dir fs st o :
  wf_output st o = true ->
  exists st2 rs ds dcs,
    rewrite_and_convert env ot ut dir fs st o = Some st2 /\
    derefs (refs_h st2) (Refs o) = Some rs /\
    derefs (defs_h st2) (Defs o) = Some ds /\
    derefs (docs_h st2) (Docs o) = Some dcs /\
    (is_err (NormalizeData env ot ut dir fs st o) = true <->
     ValidateRefs env rs <> None \/ ValidateDefs env ds <> None \/
     ValidateDocs env dcs <> None) /\
    (forall st' o',
       Defs o' = Defs o -> Refs o' = Refs o -> Docs o' = Docs o ->
       defs_h st' = defs_h st -> refs_h st' = refs_h st ->
       docs_h st' = docs_h st -> wf_output st' o' = true ->
       is_err (NormalizeData env ot ut dir fs st' o') =
       is_err (NormalizeData env ot ut dir fs st o)).
Proof.
  intros Hwf.
  destruct (rewrite_and_convert_wf env ot ut dir fs st o Hwf) as (st2 & Hrc & Hwf2).
  pose proof Hwf2 as Hwf2'.
  apply wf_output_spec in Hwf2' as (Hd & Hr & Hdc & _).
  destruct (derefs_total _ _ Hr) as [rs Hrs].
  destruct (derefs_total _ _ Hd) as [ds Hds].
  destruct (derefs_total _ _ Hdc) as [dcs Hdcs].
  exists st2, rs, ds, dcs.
  do 4 (split; [done|]). split.
  - rewrite (is_err_NormalizeData env ot ut dir fs st o st2 Hrc Hwf2).
    unfold run_validators. rewrite Hrs; simpl.
    destruct (ValidateRefs env rs) as [e|].
    + split; [intros _; left; discriminate|eauto].
    + rewrite Hds; simpl. destruct (ValidateDefs env ds) as [e|].
      * split; [intros _; right; left; discriminate|eauto].
      * rewrite Hdcs; simpl. destruct (ValidateDocs env dcs) as [e|].
        -- split; [intros _; right; right; discriminate|eauto].
        -- split; [intros [e He]; discriminate|].
           intros [H|[H|H]]; by contradict H.
  - intros st' o' HD HR HDc Hd' Hr' Hdc' Hwf'.
    destruct (rewrite_and_convert_wf env ot ut dir fs st' o' Hwf')
      as (st2' & Hrc' & Hwf2'').
    destruct (rewrite_and_convert_frame env ot ut dir fs st st' o o' st2 st2'
                HD HR HDc Hd' Hr' Hdc' Hrc Hrc') as (Ed & Er & Edc).
    pose proof (is_err_NormalizeData env ot ut dir fs st o st2 Hrc Hwf2) as I1.
    pose proof (is_err_NormalizeData env ot ut dir fs st' o' st2' Hrc' Hwf2'')
      as I2.
    rewrite (run_validators_frame env st2 st2' o o' HD HR HDc Ed Er Edc) in I2.
    destruct (is_err (NormalizeData env ot ut dir fs st' o')),
      (is_err (NormalizeData env ot ut dir fs st o)); try reflexivity;
      first [ by apply I1, I2 | by apply I2, I1
            | symmetry; by apply I1, I2 | symmetry; by apply I2, I1 ].
Qed.

Lemma NormalizeData_errors_from_validators_witness :
  wf_output mixed_store mixed_output = true /\
  exists st2,
    rewrite_and_convert env0 OffsetChar "Python" "/r" fs0
      mixed_store mixed_output = Some st2.
Proof.
  assert (Hwf : wf_output mixed_store mixed_output = true)
    by (vm_compute; reflexivity).
  split; [exact Hwf|].
  destruct (NormalizeData_errors_from_validators env0 OffsetChar "Python" "/r" fs0
              mixed_store mixed_output Hwf) as (st2 & _ & _ & _ & Hrc & _).
  exists st2. exact Hrc.
Defined.

(** C8: when [sort.Sort] meets its contract and each of the four [Less]
    comparators is a strict total order, two calls of [NormalizeData] on
    [Output]s whose slices are permutations of each other (pointing into the
    same records), with the same offset type, unit type and directory, that
    both succeed, end with the same records and list the definitions,
    references, docs and annotations in the same order. *)
Theorem NormalizeData_order_deterministic {error} (env : Collaborators error)
  ot ut dir fs st o1 o2 st1 q1 st2 q2 :
  sort_contract (@sort_by _ env) ->
  strict_total (defs_less env) -> strict_total (refs_less env) ->
  strict_total (docs_less env) -> strict_total (anns_less env) ->
  Defs o1 ≡ₚ Defs o2 -> Refs o1 ≡ₚ Refs o2 -> Docs o1 ≡ₚ Docs o2 ->
  Anns o1 ≡ₚ Anns o2 ->
  NormalizeData env ot ut dir fs st o1 = Ok st1 q1 ->
  NormalizeData env ot ut dir fs st o2 = Ok st2 q2 ->
  st1 = st2 /\
  derefs (defs_h st1) (Defs q1) = derefs (defs_h st2) (Defs q2) /\
  derefs (refs_h st1) (Refs q1) = derefs (refs_h st2) (Refs q2) /\
  derefs (docs_h st1) (Docs q1) = derefs (docs_h st2) (Docs q2) /\
  derefs (anns_h st1) (Anns q1) = derefs (anns_h st2) (Anns q2).
Proof.
  intros Hsort Hd Hr Hdc Ha HD HR HDc HA H1 H2.
  apply NormalizeData_Ok in H1 as (Hrc1 & _ & Hs1).
  apply NormalizeData_Ok in H2 as (Hrc2 & _ & Hs2).
  rewrite (rewrite_and_convert_perm env ot ut dir fs st o1 o2 HD HR HDc HA)
    in Hrc1.
  rewrite Hrc1 in Hrc2. injection Hrc2 as <-.
  split; [done|].
  unfold sortedOutput in Hs1, Hs2.
  destruct (sort_slice env (defs_less env) (defs_h st1) (Defs o1)) as [d1|] eqn:Ed1;
    [|discriminate].
  destruct (sort_slice env (refs_less env) (refs_h st1) (Refs o1)) as [r1|] eqn:Er1;
    [|discriminate].
  destruct (sort_slice env (docs_less env) (docs_h st1) (Docs o1)) as [c1|] eqn:Ec1;
    [|discriminate].
  destruct (sort_slice env (anns_less env) (anns_h st1) (Anns o1)) as [a1|] eqn:Ea1;
    [|discriminate].
  destruct (sort_slice env (defs_less env) (defs_h st1) (Defs o2)) as [d2|] eqn:Ed2;
    [|discriminate].
  destruct (sort_slice env (refs_less env) (refs_h st1) (Refs o2)) as [r2|] eqn:Er2;
    [|discriminate].
  destruct (sort_slice env (docs_less env) (docs_h st1) (Docs o2)) as [c2|] eqn:Ec2;
    [|discriminate].
  destruct (sort_slice env (anns_less env) (anns_h st1) (Anns o2)) as [a2|] eqn:Ea2;
    [|discriminate].
  simpl in Hs1, Hs2. injection Hs1 as <-. injection Hs2 as <-. simpl.
  split; [|split; [|split]].
  - exact (sort_slice_det env (defs_less env) Hsort Hd _ _ _ _ _ HD Ed1 Ed2).
  - exact (sort_slice_det env (refs_less env) Hsort Hr _ _ _ _ _ HR Er1 Er2).
  - exact (sort_slice_det env (docs_less env) Hsort Hdc _ _ _ _ _ HDc Ec1 Ec2).
  - exact (sort_slice_det env (anns_less env) Hsort Ha _ _ _ _ _ HA Ea1 Ea2).
Qed.

Lemma NormalizeData_order_deterministic_witness :
  exists st1 q1 st2 q2,
    NormalizeData env0 OffsetChar "Python" "/r" fs0 mixed_store
      (defs_output [0%N; 1%N; 2%N; 3%N]) = Ok st1 q1 /\
    NormalizeData env0 OffsetChar "Python" "/r" fs0 mixed_store
      (defs_output [3%N; 1%N; 0%N; 2%N]) = Ok st2 q2 /\
    derefs (defs_h st1) (Defs q1) = derefs (defs_h st2) (Defs q2).
Proof.
  do 4 eexists. split; [reflexivity|split; [reflexivity|]].
  refine (proj1 (proj2 (NormalizeData_order_deterministic env0 OffsetChar
    "Python" "/r" fs0 mixed_store (defs_output [0%N; 1%N; 2%N; 3%N])
    (defs_output [3%N; 1%N; 0%N; 2%N]) _ _ _ _ isort_contract enc_less_total
    enc_less_total enc_less_total enc_less_total _ _ _ _ eq_refl eq_refl))).
  - apply (bool_decide_unpack _). vm_compute. reflexivity.
  - reflexivity.
  - reflexivity.
  - reflexivity.
Defined.

(** C9 (as the code has it): the file of the scenario holds the decomposed
    spelling of "cafe" with an accent, five code points in six bytes: c, a,
    f, e and the combining acute accent U+0301 (two bytes). Its rune offsets
    0 to 5 map to the bytes 0, 1, 2, 3, 4 and 6. Rune offset 4 is the start
    of the accent, byte 4: a definition at rune range [4,4] ends with
    DefEnd 4, not 6. *)
Lemma NormalizeData_cafe_end_is_four :
  byte_offsets_for_content cafe_nfd = [0; 1; 2; 3; 4; 6] /\
  match NormalizeData env0 OffsetChar "Python" "/r" fs0
          (store_of_defs [(0%N, mk_def "cafe.txt" 4 4)]) (defs_output [0%N]) with
  | Ok st' _ => defs_h st' !! 0%N = Some (mk_def "cafe.txt" 4 4)
  | _ => False
  end.
Proof. split; vm_compute; reflexivity. Qed.

(** C9, amended: for a file holding the five code points and six bytes of
    the decomposed "cafe" with an accent (rune offsets 0 to 5 at bytes 0, 1,
    2, 3, 4 and 6), [NormalizeData] with offset type [Char] leaves a
    definition at rune range [4,4] at [4,4] (byte 4 is where the fifth code
    point, the accent, starts), and moves a definition at rune range [4,5]
    to [4,6]: the end of the word is rune offset 5. *)
Theorem NormalizeData_cafe_offsets {error} (env : Collaborators error)
  ut dir fs st o :
  fs !! join env dir "cafe.txt" = Some (FRegular (Some cafe_nfd)) ->
  wf_output st o = true -> nodup_output o ->
  byte_offsets_for_content cafe_nfd = [0; 1; 2; 3; 4; 6] /\
  exists st2,
    outcome_store (NormalizeData env OffsetChar ut dir fs st o) = Some st2 /\
    forall p d, p ∈ Defs o -> defs_h st !! p = Some d ->
      Def.File d = "cafe.txt"%string -> Def.DefStart d = 4 ->
      (Def.DefEnd d = 4 -> defs_h st2 !! p = Some d) /\
      (Def.DefEnd d = 5 -> defs_h st2 !! p = Some (Def.set_pos d 4 6)).
Proof.
  intros Hfs Hwf Hnd. split; [reflexivity|].
  destruct (NormalizeData_records env OffsetChar ut dir fs st o eq_refl Hwf Hnd)
    as (st2 & Hrc & Hwf2 & Hd & _).
  destruct (NormalizeData_outcome env OffsetChar ut dir fs st o st2 Hrc Hwf2)
    as (Hst & _ & _).
  exists st2. split; [done|].
  intros p d Hp Hpd Hf Hs. rewrite (Hd p d Hp Hpd).
  unfold fix_pure, resolve.
  change (pfile d) with (Def.File d). rewrite Hf.
  change (String.eqb "cafe.txt" "") with false. cbv iota. rewrite Hfs.
  change (pstart d) with (Def.DefStart d). change (pend d) with (Def.DefEnd d).
  rewrite Hs. split; intros He; rewrite He.
  - change (fix_offsets (byte_offsets_for_content cafe_nfd) [4; 4]) with [4; 4].
    destruct d; simpl in *. by subst.
  - change (fix_offsets (byte_offsets_for_content cafe_nfd) [4; 5]) with [4; 6].
    reflexivity.
Qed.

Lemma NormalizeData_cafe_offsets_witness :
  fs0 !! join env0 "/r" "cafe.txt" = Some (FRegular (Some cafe_nfd)) /\
  wf_output (store_of_defs [(0%N, mk_def "cafe.txt" 4 5)]) (defs_output [0%N])
    = true /\
  nodup_output (defs_output [0%N]) /\
  exists st2,
    outcome_store (NormalizeData env0 OffsetChar "Python" "/r" fs0
      (store_of_defs [(0%N, mk_def "cafe.txt" 4 5)]) (defs_output [0%N]))
      = Some st2.
Proof.
  assert (Hfs : fs0 !! join env0 "/r" "cafe.txt" = Some (FRegular (Some cafe_nfd)))
    by (vm_compute; reflexivity).
  assert (Hwf : wf_output (store_of_defs [(0%N, mk_def "cafe.txt" 4 5)])
                  (defs_output [0%N]) = true) by (vm_compute; reflexivity).
  assert (Hnd : nodup_output (defs_output [0%N]))
    by (apply (bool_decide_unpack _); vm_compute; reflexivity).
  split; [exact Hfs|split; [exact Hwf|split; [exact Hnd|]]].
  destruct (NormalizeData_cafe_offsets env0 "Python" "/r" fs0
              (store_of_defs [(0%N, mk_def "cafe.txt" 4 5)]) (defs_output [0%N])
              Hfs Hwf Hnd) as (_ & st2 & Hst & _).
  exists st2. exact Hst.
Defined.

(** C7 (as the code has it): with offset type [Char], [NormalizeData]
    converts the offsets it is given every time, already converted or not.
    A definition at runes [1,2] of a file holding "e!" with an accented e
    (two bytes) is moved to [2,3] by a first call, and a second call on the
    result moves it again, to [3,3]: the result of a successful call is not
    left alone. *)
Lemma NormalizeData_second_pass_moves_offsets :
  match NormalizeData env0 OffsetChar "Python" "/r" fs0
          (store_of_defs [(0%N, mk_def "a.txt" 1 2)]) (defs_output [0%N]) with
  | Ok st1 o1 =>
    defs_h st1 !! 0%N = Some (mk_def "a.txt" 2 3) /\
    match NormalizeData env0 OffsetChar "Python" "/r" fs0 st1 o1 with
    | Ok st2 _ => defs_h st2 !! 0%N = Some (mk_def "a.txt" 3 3)
    | _ => False
    end
  | _ => False
  end.
Proof. vm_compute. split; reflexivity. Qed.

(** C7, amended: when the offsets are not converted (offset type [Byte], or
    unspecified with a unit type that emits byte offsets), [MakeURI] is
    idempotent, [sort.Sort] meets its contract and the four comparators are
    strict total orders, a second [NormalizeData] on the result of a
    successful one, with the same offset type, unit type and directory, that
    succeeds too, leaves every record as it is and lists the four
    collections' records in the same order. *)
Theorem NormalizeData_idempotent_without_conversion {error}
  (env : Collaborators error) ot ut dir fs st o st1 o1 st2 o2 :
  convert_offsets ot ut = false ->
  (forall s, MakeURI env (MakeURI env s) = MakeURI env s) ->
  sort_contract (@sort_by _ env) ->
  strict_total (defs_less env) -> strict_total (refs_less env) ->
  strict_total (docs_less env) -> strict_total (anns_less env) ->
  NormalizeData env ot ut dir fs st o = Ok st1 o1 ->
  NormalizeData env ot ut dir fs st1 o1 = Ok st2 o2 ->
  st2 = st1 /\
  derefs (defs_h st2) (Defs o2) = derefs (defs_h st1) (Defs o1) /\
  derefs (refs_h st2) (Refs o2) = derefs (refs_h st1) (Refs o1) /\
  derefs (docs_h st2) (Docs o2) = derefs (docs_h st1) (Docs o1) /\
  derefs (anns_h st2) (Anns o2) = derefs (anns_h st1) (Anns o1).
Proof.
  intros Hc Hm Hsort Hd Hr Hdc Ha H1 H2.
  apply NormalizeData_Ok in H1 as (Hrc1 & _ & Hs1).
  apply NormalizeData_Ok in H2 as (Hrc2 & _ & Hs2).
  destruct (rewrite_and_convert_inv env ot ut dir fs st o st1 Hrc1)
    as (rh & Hrh & Hst1).
  destruct (rewrite_and_convert_inv env ot ut dir fs st1 o1 st2 Hrc2)
    as (rh2 & Hrh2 & Hst2).
  rewrite Hc in Hst1, Hst2.
  unfold sortedOutput in Hs1.
  destruct (sort_slice env (defs_less env) (defs_h st1) (Defs o)) as [d1|] eqn:Ed1;
    [|discriminate].
  destruct (sort_slice env (refs_less env) (refs_h st1) (Refs o)) as [r1|] eqn:Er1;
    [|discriminate].
  destruct (sort_slice env (docs_less env) (docs_h st1) (Docs o)) as [c1|] eqn:Ec1;
    [|discriminate].
  destruct (sort_slice env (anns_less env) (anns_h st1) (Anns o)) as [a1|] eqn:Ea1;
    [|discriminate].
  simpl in Hs1. injection Hs1 as <-.
  assert (Hrefs : upd_all (rewrite_ref env) (refs_h st1) r1 = Some (refs_h st1)).
  { apply upd_all_fixed. intros p Hp.
    destruct (sort_slice_spec env (refs_less env) Hsort Hr _ _ _ Er1) as [Hperm _].
    assert (p ∈ Refs o) as Hp' by (by rewrite <- Hperm).
    destruct (upd_all_image (rewrite_ref env) (refs_h st) (Refs o) rh Hrh p Hp')
      as [a Ha'].
    exists (rewrite_ref env a). subst st1; simpl.
    split; [done|]. by apply rewrite_ref_idem. }
  simpl in Hrh2. rewrite Hrefs in Hrh2. injection Hrh2 as <-.
  assert (st2 = st1) as ->.
  { subst st2. by destruct st1. }
  split; [done|].
  unfold sortedOutput in Hs2; simpl in Hs2.
  destruct (sort_slice env (defs_less env) (defs_h st1) d1) as [d2|] eqn:Ed2;
    [|discriminate].
  destruct (sort_slice env (refs_less env) (refs_h st1) r1) as [r2|] eqn:Er2;
    [|discriminate].
  destruct (sort_slice env (docs_less env) (docs_h st1) c1) as [c2|] eqn:Ec2;
    [|discriminate].
  destruct (sort_slice env (anns_less env) (anns_h st1) a1) as [a2|] eqn:Ea2;
    [|discriminate].
  simpl in Hs2. injection Hs2 as <-. simpl.
  split; [|split; [|split]].
  - exact (sort_slice_twice env (defs_less env) _ _ _ _ Hsort Hd Ed1 Ed2).
  - exact (sort_slice_twice env (refs_less env) _ _ _ _ Hsort Hr Er1 Er2).
  - exact (sort_slice_twice env (docs_less env) _ _ _ _ Hsort Hdc Ec1 Ec2).
  - exact (sort_slice_twice env (anns_less env) _ _ _ _ Hsort Ha Ea1 Ea2).
Qed.

Lemma NormalizeData_idempotent_without_conversion_witness :
  NormalizeData env0 OffsetByte "Python" "/r" fs0 mixed_store mixed_output
    = Ok mixed_store (defs_output [3%N; 1%N; 0%N; 2%N]) /\
  NormalizeData env0 OffsetByte "Python" "/r" fs0 mixed_store
    (defs_output [3%N; 1%N; 0%N; 2%N])
    = Ok mixed_store (defs_output [3%N; 1%N; 0%N; 2%N]) /\
  mixed_store = mixed_store.
Proof.
  assert (H1 : NormalizeData env0 OffsetByte "Python" "/r" fs0 mixed_store
                 mixed_output = Ok mixed_store (defs_output [3%N; 1%N; 0%N; 2%N]))
    by (vm_compute; reflexivity).
  assert (H2 : NormalizeData env0 OffsetByte "Python" "/r" fs0 mixed_store
                 (defs_output [3%N; 1%N; 0%N; 2%N])
               = Ok mixed_store (defs_output [3%N; 1%N; 0%N; 2%N]))
    by (vm_compute; reflexivity).
  split; [exact H1|split; [exact H2|]].
  exact (proj1 (NormalizeData_idempotent_without_conversion env0 OffsetByte
    "Python" "/r" fs0 mixed_store mixed_output _ _ _ _ eq_refl
    (fun s => eq_refl) isort_contract enc_less_total enc_less_total
    enc_less_total enc_less_total H1 H2)).
Defined.

(* ------------------------------------------------------------------ *)
(** ** Further properties of the code *)

(** [ensureOffsetsAreByteOffsets] keeps one index per file path for the
    whole call. The cache never changes the result: every record ends as it
    would if its file were read again for it alone. *)
Theorem ensureOffsetsAreByteOffsets_cache_transparent join fs dir st o :
  ensureOffsetsAreByteOffsets join fs dir st o = convert_pure join fs dir st o.
Proof. apply ensure_pure. Qed.

(** The order of the pointers within each slice does not matter to
    [ensureOffsetsAreByteOffsets]: slices that are permutations of each
    other give the same heaps, or both panic. *)
Theorem ensureOffsetsAreByteOffsets_order_independent join fs dir st o1 o2 :
  Defs o1 ≡ₚ Defs o2 -> Refs o1 ≡ₚ Refs o2 ->
  Docs o1 ≡ₚ Docs o2 -> Anns o1 ≡ₚ Anns o2 ->
  ensureOffsetsAreByteOffsets join fs dir st o1 =
  ensureOffsetsAreByteOffsets join fs dir st o2.
Proof.
  intros Hd Hr Hdc Ha. rewrite !ensure_pure. unfold convert_pure.
  by rewrite (upd_all_perm _ _ _ _ Hd), (upd_all_perm _ _ _ _ Hr),
    (upd_all_perm _ _ _ _ Hdc), (upd_all_perm _ _ _ _ Ha).
Qed.

Lemma ensureOffsetsAreByteOffsets_order_independent_witness :
  ensureOffsetsAreByteOffsets (join env0) fs0 "/r" mixed_store mixed_output =
  ensureOffsetsAreByteOffsets (join env0) fs0 "/r" mixed_store
    (defs_output [3%N; 1%N; 0%N; 2%N]).
Proof.
  apply ensureOffsetsAreByteOffsets_order_independent; simpl; [|done|done|done].
  apply (bool_decide_unpack _). vm_compute. reflexivity.
Defined.

(** A pointer listed [k] times in a slice has its record converted [k]
    times in a row by [ensureOffsetsAreByteOffsets], each pass reading the
    offsets the previous one wrote; a record no slice lists is left as it
    is ([k = 0]). *)
Theorem ensureOffsetsAreByteOffsets_repeats join fs dir st o st' :
  ensureOffsetsAreByteOffsets join fs dir st o = Some st' ->
  (forall p d, defs_h st !! p = Some d -> defs_h st' !! p =
     Some (Nat.iter (count_occ N.eq_dec (Defs o) p) (fix_pure join fs dir) d)) /\
  (forall p r, refs_h st !! p = Some r -> refs_h st' !! p =
     Some (Nat.iter (count_occ N.eq_dec (Refs o) p) (fix_pure join fs dir) r)) /\
  (forall p d, docs_h st !! p = Some d -> docs_h st' !! p =
     Some (Nat.iter (count_occ N.eq_dec (Docs o) p) (fix_pure join fs dir) d)) /\
  (forall p a, anns_h st !! p = Some a -> anns_h st' !! p =
     Some (Nat.iter (count_occ N.eq_dec (Anns o) p) (fix_pure join fs dir) a)).
Proof.
  rewrite ensure_pure. intros Hc.
  apply convert_pure_inv in Hc as (Hd & Hr & Hdc & Ha).
  split; [|split; [|split]]; intros p x Hx; by eapply upd_all_count.
Qed.

Lemma ensureOffsetsAreByteOffsets_repeats_witness :
  exists st',
    ensureOffsetsAreByteOffsets (join env0) fs0 "/r"
      (store_of_defs [(0%N, mk_def "a.txt" 1 2)]) (defs_output [0%N; 0%N])
    = Some st' /\
    defs_h st' !! 0%N =
    Some (Nat.iter 2 (fix_pure (join env0) fs0 "/r") (mk_def "a.txt" 1 2)).
Proof.
  destruct (ensureOffsetsAreByteOffsets (join env0) fs0 "/r"
      (store_of_defs [(0%N, mk_def "a.txt" 1 2)]) (defs_output [0%N; 0%N]))
    as [st'|] eqn:E; [|vm_compute in E; discriminate].
  exists st'. split; [done|].
  exact (proj1 (ensureOffsetsAreByteOffsets_repeats _ _ _ _ _ _ E) 0%N _
           ltac:(vm_compute; reflexivity)).
Defined.

(** Whatever [NormalizeData] returns short of a panic, a record that a
    slice does not list keeps its heap entry: the code writes only through
    the pointers of the [Output]. *)
Theorem NormalizeData_frame {error} (env : Collaborators error)
  ot ut dir fs st o st' :
  outcome_store (NormalizeData env ot ut dir fs st o) = Some st' ->
  (forall p, p ∉ Defs o -> defs_h st' !! p = defs_h st !! p) /\
  (forall p, p ∉ Refs o -> refs_h st' !! p = refs_h st !! p) /\
  (forall p, p ∉ Docs o -> docs_h st' !! p = docs_h st !! p) /\
  (forall p, p ∉ Anns o -> anns_h st' !! p = anns_h st !! p).
Proof.
  intros Hst. apply NormalizeData_store in Hst.
  destruct (rewrite_and_convert_inv env ot ut dir fs st o st' Hst)
    as (rh & Hrh & Hcv).
  destruct (convert_offsets ot ut).
  - apply convert_pure_inv in Hcv as (Hd & Hr & Hdc & Ha). simpl in *.
    split; [|split; [|split]]; intros p Hp.
    + exact (upd_all_notin _ _ _ _ _ Hd Hp).
    + rewrite (upd_all_notin _ _ _ _ _ Hr Hp).
      exact (upd_all_notin _ _ _ _ _ Hrh Hp).
    + exact (upd_all_notin _ _ _ _ _ Hdc Hp).
    + exact (upd_all_notin _ _ _ _ _ Ha Hp).
  - subst st'. simpl. split; [done|split; [|done]]. intros p Hp.
    exact (upd_all_notin _ _ _ _ _ Hrh Hp).
Qed.

Lemma NormalizeData_frame_witness :
  exists st',
    outcome_store (NormalizeData env0 OffsetChar "Python" "/r" fs0
                     mixed_store (defs_output [1%N])) = Some st' /\
    defs_h st' !! 0%N = defs_h mixed_store !! 0%N.
Proof.
  destruct (outcome_store (NormalizeData env0 OffsetChar "Python" "/r" fs0
                     mixed_store (defs_output [1%N]))) as [st'|] eqn:E;
    [|vm_compute in E; discriminate].
  exists st'. split; [done|].
  apply (proj1 (NormalizeData_frame _ _ _ _ _ _ _ _ E)).
  apply (bool_decide_unpack _). vm_compute. reflexivity.
Defined.

(** [NormalizeData] changes no field of a record but its offsets and, for a
    reference, its [DefRepo]: every definition, doc and annotation it does
    not panic on ends as the same record with a new start and end, every
    reference as the same reference with a new [DefRepo], start and end. *)
Theorem NormalizeData_changes_only_positions {error} (env : Collaborators error)
  ot ut dir fs st o st' :
  outcome_store (NormalizeData env ot ut dir fs st o) = Some st' ->
  (forall p d, defs_h st !! p = Some d ->
     exists s e, defs_h st' !! p = Some (Def.set_pos d s e)) /\
  (forall p r, refs_h st !! p = Some r ->
     exists dr s e, refs_h st' !! p = Some (Ref.set_pos (Ref.set_DefRepo r dr) s e)) /\
  (forall p d, docs_h st !! p = Some d ->
     exists s e, docs_h st' !! p = Some (Doc.set_pos d s e)) /\
  (forall p a, anns_h st !! p = Some a ->
     exists s e, anns_h st' !! p = Some (Ann.set_pos a s e)).
Proof.
  intros Hst. apply NormalizeData_store in Hst.
  destruct (rewrite_and_convert_inv env ot ut dir fs st o st' Hst)
    as (rh & Hrh & Hcv).
  assert (Hrw : forall b, ref_reshaped b (rewrite_ref env b)).
  { intros b. unfold rewrite_ref. destruct (String.eqb (Ref.DefRepo b) "").
    - exists (Ref.DefRepo b), (Ref.Start b), (Ref.End_ b). by destruct b.
    - exists (MakeURI env (Ref.DefRepo b)), (Ref.Start b), (Ref.End_ b).
      by destruct b. }
  assert (Hfx : forall b, ref_reshaped b (fix_pure (join env) fs dir b)).
  { intros b. destruct (fix_pure_shape (join env) fs dir b) as (s & e & ->).
    exists (Ref.DefRepo b), s, e. by destruct b. }
  assert (Htr : forall r r1 r2, ref_reshaped r r1 -> ref_reshaped r1 r2 ->
                                ref_reshaped r r2).
  { intros r r1 r2 (dr & s & e & ->) (dr' & s' & e' & ->).
    exists dr', s', e'. by destruct r. }
  assert (Hid : forall `{PositionedLaws A} (h : gmap N A) p a, h !! p = Some a ->
             exists s e, h !! p = Some (set_pos a s e)).
  { intros A ? ? h p a Ha. exists (pstart a), (pend a). by rewrite set_pos_id. }
  destruct (convert_offsets ot ut).
  - apply convert_pure_inv in Hcv as (Hd & Hr & Hdc & Ha). simpl in *.
    split; [|split; [|split]].
    + exact (@upd_all_positions Def.t Def_positioned Def_laws _ _ _ _ Def_set_pos_twice
               (fix_pure_shape (join env) fs dir) Hd).
    + intros p r Hp.
      destruct (upd_all_ref_shape _ _ _ _ Hrw Hrh p r Hp) as (r1 & Hr1 & Hs1).
      destruct (upd_all_ref_shape _ _ _ _ Hfx Hr p r1 Hr1) as (r2 & Hr2 & Hs2).
      destruct (Htr _ _ _ Hs1 Hs2) as (dr & s & e & ->). eauto.
    + exact (@upd_all_positions Doc.t Doc_positioned Doc_laws _ _ _ _ Doc_set_pos_twice
               (fix_pure_shape (join env) fs dir) Hdc).
    + exact (@upd_all_positions Ann.t Ann_positioned Ann_laws _ _ _ _ Ann_set_pos_twice
               (fix_pure_shape (join env) fs dir) Ha).
  - subst st'. simpl. split; [|split; [|split]].
    + intros p d Hp. exact (Hid _ _ _ _ _ _ Hp).
    + intros p r Hp.
      destruct (upd_all_ref_shape _ _ _ _ Hrw Hrh p r Hp)
        as (r1 & Hr1 & dr & s & e & ->). eauto.
    + intros p d Hp. exact (Hid _ _ _ _ _ _ Hp).
    + intros p a Hp. exact (Hid _ _ _ _ _ _ Hp).
Qed.

Lemma NormalizeData_changes_only_positions_witness :
  exists st',
    outcome_store (NormalizeData env_uri OffsetChar "Python" "/r" fs0
                     ref_store ref_output) = Some st' /\
    exists dr s e, refs_h st' !! 0%N =
      Some (Ref.set_pos (Ref.set_DefRepo (mk_ref "github.com/x/y" "a.txt" 1 2) dr) s e).
Proof.
  destruct (outcome_store (NormalizeData env_uri OffsetChar "Python" "/r" fs0
                     ref_store ref_output)) as [st'|] eqn:E;
    [|vm_compute in E; discriminate].
  exists st'. split; [done|].
  exact (proj1 (proj2 (NormalizeData_changes_only_positions _ _ _ _ _ _ _ _ E))
           0%N _ ltac:(vm_compute; reflexivity)).
Defined.

(** With collaborators that return normally, [NormalizeData] panics only on
    a nil pointer in a slice (a failed [ReadFile] or lookup inside [fix] is
    recovered there); when it
    converts offsets, a nil pointer anywhere makes it panic (without
    conversion, a validator's error can return before a nil definition, doc
    or annotation is dereferenced). *)
Theorem NormalizeData_panics_on_nil {error} (env : Collaborators error)
  ot ut dir fs st o :
  (NormalizeData env ot ut dir fs st o = Panic -> wf_output st o = false) /\
  (convert_offsets ot ut = true -> wf_output st o = false ->
   NormalizeData env ot ut dir fs st o = Panic).
Proof.
  split.
  - intros HP. destruct (wf_output st o) eqn:Hwf; [|done]. exfalso.
    destruct (rewrite_and_convert_wf env ot ut dir fs st o Hwf)
      as (st2 & Hrc & Hwf2).
    destruct (NormalizeData_outcome env ot ut dir fs st o st2 Hrc Hwf2)
      as (Hst & _).
    by rewrite HP in Hst.
  - intros Hc Hwf. unfold NormalizeData.
    destruct (rewrite_and_convert env ot ut dir fs st o) as [st2|] eqn:Hrc;
      [|done].
    exfalso.
    destruct (rewrite_and_convert_inv env ot ut dir fs st o st2 Hrc)
      as (rh & Hrh & Hcv).
    rewrite Hc in Hcv. apply convert_pure_inv in Hcv as (Hd & Hr & Hdc & Ha).
    simpl in *.
    assert (wf_output st o = true) as Hwf'; [|by rewrite Hwf' in Hwf].
    apply wf_output_spec. split; [|split; [|split]].
    + exact (upd_all_present _ _ _ _ Hd).
    + exact (upd_all_present _ _ _ _ Hrh).
    + exact (upd_all_present _ _ _ _ Hdc).
    + exact (upd_all_present _ _ _ _ Ha).
Qed.

Lemma NormalizeData_panics_on_nil_witness :
  NormalizeData env0 OffsetChar "Python" "/r" fs0 (store_of_defs [])
    (defs_output [0%N]) = Panic.
Proof.
  apply (proj2 (NormalizeData_panics_on_nil env0 OffsetChar "Python" "/r" fs0
                  (store_of_defs []) (defs_output [0%N])));
    vm_compute; reflexivity.
Defined.

(** When [sort.Sort] only permutes, each slice [NormalizeData] returns with
    [nil] holds the pointers it was given, reordered: none is added, lost
    or duplicated. *)
Theorem NormalizeData_slices_permuted {error} (env : Collaborators error)
  ot ut dir fs st o st' o' :
  (forall B (lt : B -> B -> bool) l, sort_by env lt l ≡ₚ l) ->
  NormalizeData env ot ut dir fs st o = Ok st' o' ->
  Defs o' ≡ₚ Defs o /\ Refs o' ≡ₚ Refs o /\
  Docs o' ≡ₚ Docs o /\ Anns o' ≡ₚ Anns o.
Proof.
  intros Hperm HOk.
  destruct (NormalizeData_Ok env ot ut dir fs st o st' o' HOk) as (_ & _ & Hso).
  unfold sortedOutput in Hso.
  destruct (sort_slice env (defs_less env) _ (Defs o)) as [ds|] eqn:E1;
    [|discriminate].
  destruct (sort_slice env (refs_less env) _ (Refs o)) as [rs|] eqn:E2;
    [|discriminate].
  destruct (sort_slice env (docs_less env) _ (Docs o)) as [dcs|] eqn:E3;
    [|discriminate].
  destruct (sort_slice env (anns_less env) _ (Anns o)) as [ans|] eqn:E4;
    [|discriminate].
  simpl in Hso. injection Hso as <-. simpl.
  split; [|split; [|split]]; eapply sort_slice_perm; eassumption.
Qed.

Lemma NormalizeData_slices_permuted_witness :
  exists st' o',
    NormalizeData env0 OffsetChar "Python" "/r" fs0 mixed_store
      (defs_output [3%N; 1%N; 0%N; 2%N]) = Ok st' o' /\
    Defs o' ≡ₚ [3%N; 1%N; 0%N; 2%N].
Proof.
  destruct (NormalizeData env0 OffsetChar "Python" "/r" fs0 mixed_store
      (defs_output [3%N; 1%N; 0%N; 2%N])) as [st' o'| |] eqn:E;
    [|vm_compute in E; discriminate|vm_compute in E; discriminate].
  exists st', o'. split; [done|].
  exact (proj1 (NormalizeData_slices_permuted env0 _ _ _ _ _ _ _ _
                  (proj1 isort_contract) E)).
Defined.

(** When [sort.Sort] meets its contract and each [Less] is a strict total
    order, the records each slice returned with [nil] points to are in
    ascending order: no record is [Less] than the one before it. *)
Theorem NormalizeData_slices_sorted {error} (env : Collaborators error)
  ot ut dir fs st o st' o' :
  sort_contract (@sort_by _ env) ->
  strict_total (defs_less env) -> strict_total (refs_less env) ->
  strict_total (docs_less env) -> strict_total (anns_less env) ->
  NormalizeData env ot ut dir fs st o = Ok st' o' ->
  (forall vs, derefs (defs_h st') (Defs o') = Some vs ->
     Sorted (fun x y => defs_less env y x = false) vs) /\
  (forall vs, derefs (refs_h st') (Refs o') = Some vs ->
     Sorted (fun x y => refs_less env y x = false) vs) /\
  (forall vs, derefs (docs_h st') (Docs o') = Some vs ->
     Sorted (fun x y => docs_less env y x = false) vs) /\
  (forall vs, derefs (anns_h st') (Anns o') = Some vs ->
     Sorted (fun x y => anns_less env y x = false) vs).
Proof.
  intros Hsort Hd Hr Hdc Ha HOk.
  destruct (NormalizeData_Ok env ot ut dir fs st o st' o' HOk) as (_ & _ & Hso).
  unfold sortedOutput in Hso.
  destruct (sort_slice env (defs_less env) _ (Defs o)) as [ds|] eqn:E1;
    [|discriminate].
  destruct (sort_slice env (refs_less env) _ (Refs o)) as [rs|] eqn:E2;
    [|discriminate].
  destruct (sort_slice env (docs_less env) _ (Docs o)) as [dcs|] eqn:E3;
    [|discriminate].
  destruct (sort_slice env (anns_less env) _ (Anns o)) as [ans|] eqn:E4;
    [|discriminate].
  simpl in Hso. injection Hso as <-. simpl.
  split; [|split; [|split]]; intros vs Hvs.
  - exact (sort_slice_sorted env _ _ _ _ _ Hsort Hd E1 Hvs).
  - exact (sort_slice_sorted env _ _ _ _ _ Hsort Hr E2 Hvs).
  - exact (sort_slice_sorted env _ _ _ _ _ Hsort Hdc E3 Hvs).
  - exact (sort_slice_sorted env _ _ _ _ _ Hsort Ha E4 Hvs).
Qed.

Lemma NormalizeData_slices_sorted_witness :
  exists st' o' vs,
    NormalizeData env0 OffsetChar "Python" "/r" fs0 mixed_store
      (defs_output [3%N; 1%N; 0%N; 2%N]) = Ok st' o' /\
    derefs (defs_h st') (Defs o') = Some vs /\
    Sorted (fun x y => defs_less env0 y x = false) vs.
Proof.
  destruct (NormalizeData env0 OffsetChar "Python" "/r" fs0 mixed_store
      (defs_output [3%N; 1%N; 0%N; 2%N])) as [st' o'| |] eqn:E;
    [|vm_compute in E; discriminate|vm_compute in E; discriminate].
  destruct (derefs (defs_h st') (Defs o')) as [vs|] eqn:Ev;
    [|vm_compute in E; injection E as <- <-; vm_compute in Ev; discriminate].
  exists st', o', vs. split; [done|split; [done|]].
  exact (proj1 (NormalizeData_slices_sorted env0 _ _ _ _ _ _ _ _ isort_contract
    enc_less_total enc_less_total enc_less_total enc_less_total E) vs Ev).
Defined.



(** [NormalizeData] reads the file system only at the paths of its records'
    files joined to [dir]: two file systems that agree at those paths give
    the same result. *)
Theorem NormalizeData_reads_only_record_files {error} (env : Collaborators error)
  ot ut dir fs fs' st o :
  (forall p d, defs_h st !! p = Some d ->
     fs !! join env dir (Def.File d) = fs' !! join env dir (Def.File d)) ->
  (forall p r, refs_h st !! p = Some r ->
     fs !! join env dir (Ref.File r) = fs' !! join env dir (Ref.File r)) ->
  (forall p d, docs_h st !! p = Some d ->
     fs !! join env dir (Doc.File d) = fs' !! join env dir (Doc.File d)) ->
  (forall p a, anns_h st !! p = Some a ->
     fs !! join env dir (Ann.File a) = fs' !! join env dir (Ann.File a)) ->
  NormalizeData env ot ut dir fs st o = NormalizeData env ot ut dir fs' st o.
Proof.
  intros Hd Hr Hdc Ha.
  assert (Hrc : rewrite_and_convert env ot ut dir fs st o =
                rewrite_and_convert env ot ut dir fs' st o).
  { unfold rewrite_and_convert.
    destruct (upd_all (rewrite_ref env) (refs_h st) (Refs o)) as [rh|] eqn:Hrh;
      [|done].
    simpl. destruct (convert_offsets ot ut); [|done].
    rewrite !ensure_pure. unfold convert_pure. simpl.
    assert (Hrh' : forall p r, rh !! p = Some r ->
      fs !! join env dir (pfile r) = fs' !! join env dir (pfile r)).
    { refine (upd_all_forall (rewrite_ref env)
                (fun r => fs !! join env dir (pfile r) = fs' !! join env dir (pfile r))
                _ _ (Refs o) Hr _ Hrh).
      intros b Hb. by rewrite (proj1 (rewrite_ref_pos env b)). }
    by rewrite (upd_all_fix_fs_ext _ fs fs' _ _ _ Hd),
      (upd_all_fix_fs_ext _ fs fs' _ _ _ Hrh'),
      (upd_all_fix_fs_ext _ fs fs' _ _ _ Hdc),
      (upd_all_fix_fs_ext _ fs fs' _ _ _ Ha). }
  unfold NormalizeData. by rewrite Hrc.
Qed.

Lemma NormalizeData_reads_only_record_files_witness :
  NormalizeData env0 OffsetChar "Python" "/r" fs0 mixed_store mixed_output =
  NormalizeData env0 OffsetChar "Python" "/r" fs1 mixed_store mixed_output.
Proof.
  apply NormalizeData_reads_only_record_files; intros p x Hp;
    unfold mixed_store, store_of_defs in Hp; simpl in Hp;
    repeat (apply lookup_insert_Some in Hp as [[<- <-]|[_ Hp]];
            [vm_compute; reflexivity|]);
    by rewrite lookup_empty in Hp.
Defined.

(** A record whose offsets are in order ([0 <= start <= end]) and whose end
    offset is found in its file's index is still in order after
    [NormalizeData] converts it: rune offsets map to byte offsets
    monotonically, and 0 stays 0. *)
Theorem NormalizeData_keeps_ranges_ordered {error} (env : Collaborators error)
  ot ut dir fs st o :
  convert_offsets ot ut = true -> wf_output st o = true -> nodup_output o ->
  exists st2,
    outcome_store (NormalizeData env ot ut dir fs st o) = Some st2 /\
    range_kept (join env) fs dir (fun d => d) (Defs o) (defs_h st) (defs_h st2) /\
    range_kept (join env) fs dir (rewrite_ref env) (Refs o) (refs_h st) (refs_h st2) /\
    range_kept (join env) fs dir (fun d => d) (Docs o) (docs_h st) (docs_h st2) /\
    range_kept (join env) fs dir (fun a => a) (Anns o) (anns_h st) (anns_h st2).
Proof.
  intros Hc Hwf Hnd.
  destruct (NormalizeData_records env ot ut dir fs st o Hc Hwf Hnd)
    as (st2 & Hrc & Hwf2 & Hd & Hr & Hdc & Ha).
  destruct (NormalizeData_outcome env ot ut dir fs st o st2 Hrc Hwf2)
    as (Hst & _ & _).
  exists st2. split; [done|].
  split; [|split; [|split]]; by apply range_kept_of.
Qed.

Lemma NormalizeData_keeps_ranges_ordered_witness :
  exists st2,
    outcome_store (NormalizeData env0 OffsetChar "Python" "/r" fs0
                     mixed_store mixed_output) = Some st2 /\
    exists d', defs_h st2 !! 1%N = Some d' /\ Def.DefStart d' <= Def.DefEnd d'.
Proof.
  assert (Hc : convert_offsets OffsetChar "Python" = true) by reflexivity.
  assert (Hwf : wf_output mixed_store mixed_output = true)
    by (vm_compute; reflexivity).
  assert (Hnd : nodup_output mixed_output)
    by (apply (bool_decide_unpack _); vm_compute; reflexivity).
  destruct (NormalizeData_keeps_ranges_ordered env0 OffsetChar "Python" "/r" fs0
              mixed_store mixed_output Hc Hwf Hnd) as (st2 & Hst & Hd & _).
  exists st2. split; [exact Hst|].
  apply (Hd 1%N (mk_def "a.txt" 1 2) e_bang).
  - apply (bool_decide_unpack _). vm_compute. reflexivity.
  - vm_compute. reflexivity.
  - vm_compute. reflexivity.
  - vm_compute. split; discriminate.
  - vm_compute. discriminate.
Defined.
